(** * Peer-to-peer room protocol: a shallow embedding of
      [src/networking/webrtc] (connection.ts, room.ts) and of the
      identity-collision retry of [src/app/routes/chat.tsx].

    The program is single-threaded and event driven.  Every method and
    every listener is embedded as a function from the object's state to
    the new state and the list of things it did to the outside world
    (console output, calls into PeerJS, subscriber callbacks), in program
    order.  Events delivered by PeerJS are inputs of a step function; a
    listener that PeerJS runs inside a call the code makes (the close
    listener of a channel, inside [conn.close()]) is part of that call. *)

From Stdlib Require Import ZArith Lia.
From stdpp Require Import base option list strings pretty gmap.

Local Open Scope string_scope.
Local Open Scope list_scope.
Set Warnings "-register-all,-clear-no-such-hyp".

(** ** JavaScript [Map<string, V>]

    A JS Map iterates in insertion order, [set] on a present key keeps the
    key's position, and keys are unique.  The entries are kept as a list
    in insertion order. *)
Module JsMap.
Section Ops.
Context {V : Type}.

Fixpoint get (k : string) (m : list (string * V)) : option V :=
match m with
| [] => None
| (k', v) :: m' => if String.eqb k k' then Some v else get k m'
end.

Definition has (k : string) (m : list (string * V)) : bool :=
match get k m with Some _ => true | None => false end.

Fixpoint set (k : string) (v : V) (m : list (string * V)) : list (string * V) :=
match m with
| [] => [(k, v)]
| (k', v') :: m' =>
    if String.eqb k k' then (k', v) :: m' else (k', v') :: set k v m'
end.

(** Keys are unique, so at most one entry goes. *)
Fixpoint delete (k : string) (m : list (string * V)) : list (string * V) :=
match m with
| [] => []
| (k', v') :: m' =>
    if String.eqb k k' then delete k m' else (k', v') :: delete k m'
end.

Definition clear (m : list (string * V)) : list (string * V) := [].

Definition keys (m : list (string * V)) : list string := m.*1.
Definition values (m : list (string * V)) : list V := m.*2.

(** The mapping a Map denotes, without the iteration order. *)
Definition to_gmap (m : list (string * V)) : gmap string V := list_to_map m.
End Ops.
End JsMap.

Abbreviation JsMap V := (list (string * V)).

(** ** Values that arrive over a channel ([data: any])

    Numbers are the integer-valued ones; that is all the protocol uses. *)
Inductive JsVal :=
| JUndefined
| JNull
| JBool (b : bool)
| JNum (n : Z)
| JStr (s : string)
| JArr (xs : list JsVal)
| JObj (props : list (string * JsVal)).

(** [typeof v === 'object'] *)
Definition typeof_object (v : JsVal) : bool :=
  match v with
  | JNull | JArr _ | JObj _ => true
  | _ => false
  end.

(** JavaScript truthiness: [undefined], [null], [false], [0] and [''] are
    falsy. *)
Definition truthy (v : JsVal) : bool :=
  match v with
  | JUndefined | JNull => false
  | JBool b => b
  | JNum n => negb (n =? 0)%Z
  | JStr s => negb (String.eqb s "")
  | JArr _ | JObj _ => true
  end.

(** [v.name] for a name that no primitive and no array defines (the
    protocol reads type, user, userId, message, users, id, username,
    sender, content, timestamp).  Reading a property of [null] or
    [undefined] throws; the one caller that can see them tests the value
    first. *)
Definition prop (name : string) (v : JsVal) : JsVal :=
  match v with
  | JObj props => default JUndefined (JsMap.get name props)
  | _ => JUndefined
  end.

(** ** connection.ts *)

Inductive ConnectionState := DISCONNECTED | CONNECTING | CONNECTED | FAILED.

(** [Message]; [mid] is the field [id]. *)
Record Message := mkMessage {
  mid : Z;
  sender : string;
  content : string;
  timestamp : Z
}.

(** An [Error] as PeerJS raises them. *)
Record JsError := mkJsError { err_type : string; err_message : string }.

(** A PeerJS [DataConnection]: the remote identity [conn.peer], and
    whether [conn.send] throws on it. *)
Record DataConnection := mkDataConnection {
  conn_peer : string;
  send_throws : bool
}.

(** A PeerJS [Peer], created with a requested identity or without one. *)
Record Peer := mkPeer { requested : option string }.

Record WebRTCConnection := mkWebRTCConnection {
  peer : option Peer;
  connections : JsMap DataConnection;
  state : ConnectionState;
  userId : string
}.

Inductive LogLevel := LOG | WARN | ERROR.

(** What the connection tells its subscriber: [this.events.onX?.(...)]. *)
Inductive Upcall :=
| UpConnect (peerId : string)
| UpDisconnect (peerId : string)
| UpMessage (data : JsVal) (peerId : string)
| UpError (e : JsError).

(** Everything the code does to the outside, in program order.  [P] is
    the type of what is sent: the connection declares [Message], the room
    passes its frames [as any]. *)
Inductive Effect (P : Type) :=
| Console (l : LogLevel) (text : string)
| NewPeer (req : option string)          (* new Peer(userId, opts) | new Peer(opts) *)
| PeerConnect (remote : string)          (* this.peer.connect(remote) *)
| ConnSend (to : string) (payload : P)   (* conn.send(payload) returned *)
| ConnSendThrew (to : string) (payload : P) (* conn.send(payload) threw *)
| ConnClose (remote : string)            (* conn.close() *)
| PeerDestroy                            (* this.peer.destroy() *)
| Resolve (v : option string)            (* resolve(id) | resolve() *)
| Reject (e : JsError)
| Emit (u : Upcall)
| OnJoin (peerId username : string)      (* options.onJoin?.(...) *)
| OnLeave (peerId : string)              (* options.onLeave?.(...) *)
| OnMessage (m : Message) (fromPeerId : string)
| OnError (e : JsError).

Arguments Console {P}. Arguments NewPeer {P}. Arguments PeerConnect {P}.
Arguments ConnSend {P}. Arguments ConnSendThrew {P}. Arguments ConnClose {P}.
Arguments PeerDestroy {P}. Arguments Resolve {P}. Arguments Reject {P}.
Arguments Emit {P}. Arguments OnJoin {P}. Arguments OnLeave {P}.
Arguments OnMessage {P}. Arguments OnError {P}.

Definition nonempty (s : string) : bool := negb (String.eqb s "").

Definition with_peer (p : option Peer) (c : WebRTCConnection) :=
  mkWebRTCConnection p (connections c) (state c) (userId c).
Definition with_connections (m : JsMap DataConnection) (c : WebRTCConnection) :=
  mkWebRTCConnection (peer c) m (state c) (userId c).
Definition with_state (s : ConnectionState) (c : WebRTCConnection) :=
  mkWebRTCConnection (peer c) (connections c) s (userId c).

Section Connection.
Context {P : Type}.
Implicit Types (c : WebRTCConnection) (message : P).

(** [new WebRTCConnection(userId)] *)
Definition WebRTCConnection_new (userId : string) : WebRTCConnection :=
  mkWebRTCConnection None [] DISCONNECTED userId.

(** [initialize()], up to the return of the promise: the peer is
    created and the three listeners below are registered on it.  (The
    [catch] is for a constructor that throws; it is taken to return.) *)
Definition initialize c : WebRTCConnection * list (Effect P) :=
  let req := if nonempty (userId c) then Some (userId c) else None in
  (with_peer (Some (mkPeer req)) c, [NewPeer req]).

(** [peer.on('open', id => ...)] *)
Definition peer_on_open (id : string) c : WebRTCConnection * list (Effect P) :=
  (with_state CONNECTED c,
   [Console LOG ("Peer connection established with ID: " +:+ id);
    Resolve (Some id)]).

(** [peer.on('error', error => ...)] *)
Definition peer_on_error (error : JsError) c : WebRTCConnection * list (Effect P) :=
  (c,
   [Console ERROR "Peer connection error:"; Emit (UpError error)]
   ++ match state c with
      | CONNECTED => []
      | _ => [Reject error]
      end).

(** [handleIncomingConnection(conn)], run by [peer.on('connection')]:
    it only registers listeners on [conn]. *)
Definition handleIncomingConnection (conn : DataConnection) c
  : WebRTCConnection * list (Effect P) := (c, []).

(** [connect(remotePeerId)], up to the return of the promise.  The state
    is assigned before [peer.connect] is called, so it is CONNECTING
    also when that call throws into the [catch]; the call is taken to
    return. *)
Definition connect (remotePeerId : string) c : WebRTCConnection * list (Effect P) :=
  match peer c with
  | None => (c, [Reject (mkJsError "" "Peer not initialized")])
  | Some _ => (with_state CONNECTING c, [PeerConnect remotePeerId])
  end.

(** [conn.on('open')]: of a dialled connection ([connect], which also
    settles its promise) or of an accepted one
    ([handleIncomingConnection]). *)
Definition conn_on_open (dialled : bool) (conn : DataConnection) c
  : WebRTCConnection * list (Effect P) :=
  (with_connections (JsMap.set (conn_peer conn) conn (connections c)) c,
   Emit (UpConnect (conn_peer conn)) :: if dialled then [Resolve None] else []).

(** [conn.on('error')].  [connect] registers it on the connection it
    dials; a connection accepted by [handleIncomingConnection] gets no
    error listener. *)
Definition conn_on_error (conn : DataConnection) (error : JsError) c
  : WebRTCConnection * list (Effect P) :=
  (c,
   [Console ERROR ("Connection error with peer " +:+ conn_peer conn +:+ ":");
    Emit (UpError error); Reject error]).

(** [setupConnectionListeners]: [conn.on('data')] *)
Definition conn_on_data (conn : DataConnection) (data : JsVal) c
  : WebRTCConnection * list (Effect P) :=
  (c, if typeof_object data then [Emit (UpMessage data (conn_peer conn))] else []).

(** [setupConnectionListeners]: [conn.on('close')] *)
Definition conn_on_close (conn : DataConnection) c
  : WebRTCConnection * list (Effect P) :=
  (with_connections (JsMap.delete (conn_peer conn) (connections c)) c,
   [Emit (UpDisconnect (conn_peer conn))]).

(** [sendMessage(peerId, message): boolean] *)
Definition sendMessage (peerId : string) message c : bool * list (Effect P) :=
  match JsMap.get peerId (connections c) with
  | None => (false, [Console ERROR ("No connection found for peer " +:+ peerId)])
  | Some conn =>
      if send_throws conn
      then (false,
            [ConnSendThrew peerId message;
             Console ERROR ("Failed to send message to peer " +:+ peerId +:+ ":")])
      else (true, [ConnSend peerId message])
  end.

(** The body of the [forEach] callback of [broadcast]. *)
Definition broadcast_one message (entry : string * DataConnection)
  : list (Effect P) :=
  let '(peerId, conn) := entry in
  if send_throws conn
  then [ConnSendThrew peerId message;
        Console ERROR ("Failed to broadcast message to peer " +:+ peerId +:+ ":")]
  else [ConnSend peerId message].

(** [broadcast(message): void] *)
Definition broadcast message c : unit * list (Effect P) :=
  (tt, concat (map (broadcast_one message) (connections c))).

(** [conn.close()] on the channel that the Map has under [peerId].  A
    channel of the Map is open (its open listener stores it, and a close
    takes its identity out of the Map), so PeerJS closes it and runs its
    close listener before [close()] returns. *)
Definition conn_close (peerId : string) (conn : DataConnection) c
  : WebRTCConnection * list (Effect P) :=
  (fst (conn_on_close conn c), ConnClose peerId :: snd (conn_on_close conn c)).

(** [disconnectFrom(peerId)] *)
Definition disconnectFrom (peerId : string) c : WebRTCConnection * list (Effect P) :=
  match JsMap.get peerId (connections c) with
  | Some conn =>
      let closed := conn_close peerId conn c in
      (with_connections (JsMap.delete peerId (connections (fst closed))) (fst closed),
       snd closed)
  | None => (c, [])
  end.

(** The [forEach] of [disconnect()]: the channels of the Map are closed
    one after the other.  A channel is stored under its own identity
    ([conn_on_open]), so the close listener of the one being closed
    removes its own entry and the [forEach] goes on to the next. *)
Fixpoint close_all (entries : JsMap DataConnection) c
  : WebRTCConnection * list (Effect P) :=
  match entries with
  | [] => (c, [])
  | (peerId, conn) :: rest =>
      let closed := conn_close peerId conn c in
      let others := close_all rest (fst closed) in
      (fst others, snd closed ++ snd others)
  end.

(** [disconnect()], after its [forEach].  [peer.destroy()] is a call
    into PeerJS: it finds the channels of the Map closed already.  (A
    channel that is open and not in the Map, because a channel of the
    same identity took its place or took its entry away, is not in the
    state of this class; what PeerJS does with it is not followed.) *)
Definition disconnect_end c : WebRTCConnection * list (Effect P) :=
  (mkWebRTCConnection None (JsMap.clear (connections c)) DISCONNECTED (userId c),
   match peer c with
   | Some _ => [PeerDestroy]
   | None => []
   end).

(** [disconnect()] *)
Definition disconnect c : WebRTCConnection * list (Effect P) :=
  let closed := close_all (connections c) c in
  (fst (disconnect_end (fst closed)), snd closed ++ snd (disconnect_end (fst closed))).

Definition getState c : ConnectionState := state c.

Definition getConnectedPeers c : list string := JsMap.keys (connections c).
End Connection.

Arguments broadcast {P} message c : simpl never.
Arguments sendMessage {P} peerId message c : simpl never.

(** ** room.ts *)

Record UserInfo := mkUserInfo { id : string; username : string }.

Inductive RoomMessage :=
| JOIN (user : UserInfo)
| LEAVE (userId : string)
| CHAT (message : Message)
| USER_LIST (users : list UserInfo).

(** [RoomOptions]; the four optional callbacks are the [OnJoin],
    [OnLeave], [OnMessage] and [OnError] effects. *)
Record RoomOptions := mkRoomOptions {
  opt_roomId : string;
  opt_userId : string;
  opt_username : string
}.

(** What the Map [users] holds: the object [this.userInfo] itself (the
    constructor and [join] store that very object, so a later assignment
    to [this.userInfo.id] shows through the Map), or an object that came
    with a frame. *)
Inductive UserRef :=
| Own
| Sent (u : UserInfo).

Record Room := mkRoom {
  connection : WebRTCConnection;
  roomId : string;
  userInfo : UserInfo;
  users : JsMap UserRef;
  options : RoomOptions;
  messageIdCounter : Z
}.

Abbreviation Trace := (list (Effect RoomMessage)).

Definition with_connection (c : WebRTCConnection) (r : Room) :=
  mkRoom c (roomId r) (userInfo r) (users r) (options r) (messageIdCounter r).
Definition with_userInfo (u : UserInfo) (r : Room) :=
  mkRoom (connection r) (roomId r) u (users r) (options r) (messageIdCounter r).
Definition with_users (m : JsMap UserRef) (r : Room) :=
  mkRoom (connection r) (roomId r) (userInfo r) m (options r) (messageIdCounter r).
Definition with_messageIdCounter (n : Z) (r : Room) :=
  mkRoom (connection r) (roomId r) (userInfo r) (users r) (options r) n.

(** The object a Map value stands for. *)
Definition deref (r : Room) (x : UserRef) : UserInfo :=
  match x with
  | Own => userInfo r
  | Sent u => u
  end.

(** [new Room(options)] *)
Definition Room_new (o : RoomOptions) : Room :=
  mkRoom (WebRTCConnection_new (opt_userId o))
         (opt_roomId o)
         (mkUserInfo (opt_userId o) (opt_username o))
         (JsMap.set (opt_userId o) Own [])
         o
         0%Z.

(** [getUsers()] *)
Definition getUsers (r : Room) : list UserInfo :=
  map (deref r) (JsMap.values (users r)).

(** [hasUser(userId)] *)
Definition hasUser (userId : string) (r : Room) : bool :=
  JsMap.has userId (users r).

(** [getConnectionState()] *)
Definition getConnectionState (r : Room) : ConnectionState :=
  getState (connection r).

(** [sendJoinMessage(targetPeerId?)]; an empty string is falsy. *)
Definition sendJoinMessage (targetPeerId : option string) (r : Room) : Trace :=
  let joinMessage := JOIN (userInfo r) in
  match targetPeerId with
  | Some p =>
      if nonempty p
      then snd (sendMessage p joinMessage (connection r))
      else snd (broadcast joinMessage (connection r))
  | None => snd (broadcast joinMessage (connection r))
  end.

(** [broadcastJoinMessage(user)] *)
Definition broadcastJoinMessage (user : UserInfo) (r : Room) : Trace :=
  if String.eqb (id user) (id (userInfo r))
  then []
  else snd (broadcast (JOIN user) (connection r)).

(** [broadcastLeaveMessage(userId)] *)
Definition broadcastLeaveMessage (userId : string) (r : Room) : Trace :=
  snd (broadcast (LEAVE userId) (connection r)).

(** [sendUserList(targetPeerId)] *)
Definition sendUserList (targetPeerId : string) (r : Room) : Trace :=
  snd (sendMessage targetPeerId (USER_LIST (getUsers r)) (connection r)).

(** [setupConnectionEvents]: the handler [onConnect] *)
Definition onConnect (peerId : string) (r : Room) : Room * Trace :=
  (r,
   Console LOG ("Connected to peer: " +:+ peerId)
   :: sendJoinMessage (Some peerId) r ++ sendUserList peerId r).

(** [setupConnectionEvents]: the handler [onDisconnect] *)
Definition onDisconnect (peerId : string) (r : Room) : Room * Trace :=
  if JsMap.has peerId (users r)
  then
    let r' := with_users (JsMap.delete peerId (users r)) r in
    (r',
     Console LOG ("Disconnected from peer: " +:+ peerId)
     :: OnLeave peerId :: broadcastLeaveMessage peerId r')
  else (r, [Console LOG ("Disconnected from peer: " +:+ peerId)]).

(** [setupConnectionEvents]: the handler [onError] *)
Definition onError (error : JsError) (r : Room) : Room * Trace :=
  (r, [Console ERROR "Connection error:"; OnError error]).

(** [handleJoinMessage(message, fromPeerId)], on [message.user] *)
Definition handleJoinMessage (user : UserInfo) (fromPeerId : string) (r : Room)
  : Room * Trace :=
  let r' := with_users (JsMap.set (id user) (Sent user) (users r)) r in
  (r', OnJoin (id user) (username user) :: broadcastJoinMessage user r').

(** [handleLeaveMessage(message)], on [message.userId] *)
Definition handleLeaveMessage (userId : string) (r : Room) : Room * Trace :=
  if JsMap.has userId (users r)
  then (with_users (JsMap.delete userId (users r)) r, [OnLeave userId])
  else (r, []).

(** [handleChatMessage(message, fromPeerId)], on [message.message] *)
Definition handleChatMessage (message : Message) (fromPeerId : string) (r : Room)
  : Room * Trace :=
  (r, [OnMessage message fromPeerId]).

(** [handleUserListMessage(message)], on [message.users]: the [forEach] *)
Fixpoint handleUserListMessage (us : list UserInfo) (r : Room) : Room * Trace :=
  match us with
  | [] => (r, [])
  | user :: rest =>
      if JsMap.has (id user) (users r)
      then handleUserListMessage rest r
      else
        let r' := with_users (JsMap.set (id user) (Sent user) (users r)) r in
        let '(r'', t) := handleUserListMessage rest r' in
        (r'', OnJoin (id user) (username user) :: t)
  end.

(** The [switch] of [handleRoomMessage] on a frame of the declared type. *)
Definition deliver (message : RoomMessage) (fromPeerId : string) (r : Room)
  : Room * Trace :=
  match message with
  | JOIN user => handleJoinMessage user fromPeerId r
  | LEAVE userId => handleLeaveMessage userId r
  | CHAT m => handleChatMessage m fromPeerId r
  | USER_LIST us => handleUserListMessage us r
  end.

(** [data as RoomMessage] is an unchecked cast.  The readers below give
    the payload of a frame when it has the shape its interface declares;
    a frame with a known tag and another payload is outside this model
    ([None]). *)
Definition as_string (v : JsVal) : option string :=
  match v with JStr s => Some s | _ => None end.

Definition as_number (v : JsVal) : option Z :=
  match v with JNum n => Some n | _ => None end.

Definition as_UserInfo (v : JsVal) : option UserInfo :=
  i ← as_string (prop "id" v);
  n ← as_string (prop "username" v);
  Some (mkUserInfo i n).

Definition as_Message (v : JsVal) : option Message :=
  i ← as_number (prop "id" v);
  s ← as_string (prop "sender" v);
  c ← as_string (prop "content" v);
  t ← as_number (prop "timestamp" v);
  Some (mkMessage i s c t).

Definition as_users (v : JsVal) : option (list UserInfo) :=
  match v with
  | JArr xs => mapM as_UserInfo xs
  | _ => None
  end.

(** [handleRoomMessage(data, fromPeerId)] *)
Definition handleRoomMessage (data : JsVal) (fromPeerId : string) (r : Room)
  : option (Room * Trace) :=
  if negb (truthy data) || negb (truthy (prop "type" data))
  then Some (r, [Console ERROR "Received invalid message format"])
  else
    match prop "type" data with
    | JStr t =>
        if String.eqb t "JOIN" then
          user ← as_UserInfo (prop "user" data);
          Some (handleJoinMessage user fromPeerId r)
        else if String.eqb t "LEAVE" then
          userId ← as_string (prop "userId" data);
          Some (handleLeaveMessage userId r)
        else if String.eqb t "CHAT" then
          m ← as_Message (prop "message" data);
          Some (handleChatMessage m fromPeerId r)
        else if String.eqb t "USER_LIST" then
          us ← as_users (prop "users" data);
          Some (handleUserListMessage us r)
        else Some (r, [Console WARN "Unknown message type"])
    | _ => Some (r, [Console WARN "Unknown message type"])
    end.

(** How a frame looks on the wire (PeerJS serialises the object). *)
Definition of_UserInfo (u : UserInfo) : JsVal :=
  JObj [("id", JStr (id u)); ("username", JStr (username u))].

Definition of_Message (m : Message) : JsVal :=
  JObj [("id", JNum (mid m)); ("sender", JStr (sender m));
        ("content", JStr (content m)); ("timestamp", JNum (timestamp m))].

Definition encode (f : RoomMessage) : JsVal :=
  match f with
  | JOIN user => JObj [("type", JStr "JOIN"); ("user", of_UserInfo user)]
  | LEAVE userId => JObj [("type", JStr "LEAVE"); ("userId", JStr userId)]
  | CHAT m => JObj [("type", JStr "CHAT"); ("message", of_Message m)]
  | USER_LIST us =>
      JObj [("type", JStr "USER_LIST"); ("users", JArr (map of_UserInfo us))]
  end.

(** [join()], up to [await this.connection.initialize()]. *)
Definition join_begin (r : Room) : Room * Trace :=
  let '(c, t) := initialize (connection r) in
  (with_connection c r, t).

(** [join()], from the point where [initialize()] has resolved with
    [peerId] up to [await this.connection.connect(roomPeerId)] or the
    [return].  (The [catch] logs and rethrows; it assigns nothing.) *)
Definition join_resume (peerId : string) (r : Room) : Room * Trace :=
  let r1 :=
    if String.eqb peerId (id (userInfo r))
    then r
    else
      with_users
        (JsMap.set peerId Own (JsMap.delete (opt_userId (options r)) (users r)))
        (with_userInfo (mkUserInfo peerId (username (userInfo r))) r) in
  if nonempty (roomId r1) && negb (String.eqb (roomId r1) peerId)
  then
    let '(c, t) := connect (roomId r1) (connection r1) in
    (with_connection c r1, t)
  else (r1, []).

(** The [forEach] of [disconnect()] when [leave()] calls it.  The close
    listener of each channel calls the room's [onDisconnect] in the
    middle of the [forEach]: the handler sees the Map of channels without
    the ones closed so far, and the Map of users before [leave()] clears
    it. *)
Fixpoint close_all_channels (entries : JsMap DataConnection) (r : Room)
  : Room * Trace :=
  match entries with
  | [] => (r, [])
  | (peerId, conn) :: rest =>
      let c := fst (conn_close (P:=RoomMessage) peerId conn (connection r)) in
      let handled := onDisconnect (conn_peer conn) (with_connection c r) in
      let others := close_all_channels rest (fst handled) in
      (fst others, ConnClose peerId :: snd handled ++ snd others)
  end.

(** [leave()]: [this.connection.disconnect()], then [this.users.clear()]. *)
Definition leave (r : Room) : Room * Trace :=
  let closed := close_all_channels (connections (connection r)) r in
  let ended := disconnect_end (P:=RoomMessage) (connection (fst closed)) in
  (with_users (JsMap.clear (users (fst closed)))
     (with_connection (fst ended) (fst closed)),
   snd closed ++ snd ended).

(** [getNextMessageId()]: [++this.messageIdCounter].  The counter is a
    JS number, exact on the integers up to 2^53. *)
Definition getNextMessageId (r : Room) : Z * Room :=
  let n := (messageIdCounter r + 1)%Z in
  (n, with_messageIdCounter n r).

(** [sendMessage(content)]; [now] is what [Date.now()] returns. *)
Definition Room_sendMessage (content : string) (now : Z) (r : Room)
  : Message * Room * Trace :=
  let '(n, r1) := getNextMessageId r in
  let message := mkMessage n (username (userInfo r1)) content now in
  (message, r1, snd (broadcast (CHAT message) (connection r1))).

(** *** The room as a machine

    The constructor subscribes the four handlers; an upcall of the
    connection runs the handler in its place. *)
Definition handle_upcall (u : Upcall) (r : Room) : option (Room * Trace) :=
  match u with
  | UpConnect peerId => Some (onConnect peerId r)
  | UpDisconnect peerId => Some (onDisconnect peerId r)
  | UpMessage data peerId => handleRoomMessage data peerId r
  | UpError e => Some (onError e r)
  end.

Fixpoint run_upcalls (es : Trace) (r : Room) : option (Room * Trace) :=
  match es with
  | [] => Some (r, [])
  | Emit u :: es' =>
      '(r1, t1) ← handle_upcall u r;
      '(r2, t2) ← run_upcalls es' r1;
      Some (r2, t1 ++ t2)
  | e :: es' =>
      '(r2, t2) ← run_upcalls es' r;
      Some (r2, e :: t2)
  end.

Definition via_connection
    (f : WebRTCConnection → WebRTCConnection * Trace) (r : Room)
  : option (Room * Trace) :=
  let '(c, es) := f (connection r) in
  run_upcalls es (with_connection c r).

(** What can happen to a room: PeerJS fires a listener, or the
    application calls a method.  [dialled] tells a connection that
    [connect] made from one that [handleIncomingConnection] accepted:
    only the first has an error listener. *)
Inductive Event :=
| PeerOpen (id : string)
| PeerError (e : JsError)
| PeerConnection (conn : DataConnection)
| ChannelOpen (dialled : bool) (conn : DataConnection)
| ChannelError (dialled : bool) (conn : DataConnection) (e : JsError)
| ChannelData (conn : DataConnection) (data : JsVal)
| ChannelClose (conn : DataConnection)
| CallJoin
| CallLeave
| CallSendMessage (content : string) (now : Z).

(** One event.  [join] is the only caller of [initialize], so the peer's
    open event resumes it. *)
Definition step (ev : Event) (r : Room) : option (Room * Trace) :=
  match ev with
  | PeerOpen i =>
      '(r1, t1) ← via_connection (peer_on_open i) r;
      let '(r2, t2) := join_resume i r1 in
      Some (r2, t1 ++ t2)
  | PeerError e => via_connection (peer_on_error e) r
  | PeerConnection conn => via_connection (handleIncomingConnection conn) r
  | ChannelOpen dialled conn => via_connection (conn_on_open dialled conn) r
  | ChannelError dialled conn e =>
      if dialled then via_connection (conn_on_error conn e) r else Some (r, [])
  | ChannelData conn data => via_connection (conn_on_data conn data) r
  | ChannelClose conn => via_connection (conn_on_close conn) r
  | CallJoin => Some (join_begin r)
  | CallLeave => Some (leave r)
  | CallSendMessage content now =>
      let '(_, r1, t) := Room_sendMessage content now r in Some (r1, t)
  end.

Fixpoint run (evs : list Event) (r : Room) : option (Room * Trace) :=
  match evs with
  | [] => Some (r, [])
  | ev :: evs' =>
      '(r1, t1) ← step ev r;
      '(r2, t2) ← run evs' r1;
      Some (r2, t1 ++ t2)
  end.

(** *** Views used to state the properties *)

(** The membership mapping: identity to member, whatever the iteration
    order of [users]. *)
Definition membership (r : Room) : gmap string UserInfo :=
  JsMap.to_gmap (prod_map (λ k : string, k) (deref r) <$> users r).

(** The members a frame announces. *)
Definition announced (f : RoomMessage) : list UserInfo :=
  match f with
  | JOIN user => [user]
  | USER_LIST us => us
  | LEAVE _ | CHAT _ => []
  end.

Definition is_announcement (f : RoomMessage) : bool :=
  match f with
  | JOIN _ | USER_LIST _ => true
  | LEAVE _ | CHAT _ => false
  end.

(** Frames handled one after the other, each with the peer it came
    from. *)
Fixpoint deliver_all (fs : list (string * RoomMessage)) (r : Room) : Room * Trace :=
  match fs with
  | [] => (r, [])
  | (fromPeerId, f) :: fs' =>
      let '(r1, t1) := deliver f fromPeerId r in
      let '(r2, t2) := deliver_all fs' r1 in
      (r2, t1 ++ t2)
  end.

Definition announcements (fs : list (string * RoomMessage)) : list UserInfo :=
  concat (announced <$> fs.*2).

(** Members as (identity, member) pairs. *)
Definition by_id (us : list UserInfo) : list (string * UserInfo) :=
  (λ u, (id u, u)) <$> us.

(** The announcements give one display name per identity, and the one
    the room already has where it has one. *)
Definition agree (m : gmap string UserInfo) (us : list UserInfo) : Prop :=
  ∀ u, u ∈ us →
    (∀ v, m !! id u = Some v → v = u) ∧ (∀ u', u' ∈ us → id u' = id u → u' = u).

(** An event that names the local participant as the one who left: a
    LEAVE frame with its identity, or the close of a channel keyed by it
    (the signalling server gives no two peers one identity). *)
Definition names_self (ev : Event) (r : Room) : bool :=
  match ev with
  | ChannelData _ data =>
      match prop "type" data, prop "userId" data with
      | JStr t, JStr u => String.eqb t "LEAVE" && String.eqb u (id (userInfo r))
      | _, _ => false
      end
  | ChannelClose conn => String.eqb (conn_peer conn) (id (userInfo r))
  | _ => false
  end.

(** The states of a room from its construction up to [leave()]. *)
Inductive in_session (o : RoomOptions) : Room → Prop :=
| session_new : in_session o (Room_new o)
| session_step ev r r' t :
    in_session o r →
    ev ≠ CallLeave →
    names_self ev r = false →
    step ev r = Some (r', t) →
    in_session o r'.

Definition is_send_call (ev : Event) : bool :=
  match ev with
  | CallSendMessage _ _ => true
  | _ => false
  end.

(** *** The connection as a machine *)
Inductive ConnOp (P : Type) :=
| OpInitialize
| OpPeerOpen (id : string)
| OpPeerError (e : JsError)
| OpIncoming (conn : DataConnection)
| OpConnect (remotePeerId : string)
| OpChannelOpen (dialled : bool) (conn : DataConnection)
| OpChannelError (dialled : bool) (conn : DataConnection) (e : JsError)
| OpChannelData (conn : DataConnection) (data : JsVal)
| OpChannelClose (conn : DataConnection)
| OpSendMessage (peerId : string) (message : P)
| OpBroadcast (message : P)
| OpDisconnectFrom (peerId : string)
| OpDisconnect.

Arguments OpInitialize {P}. Arguments OpPeerOpen {P}. Arguments OpPeerError {P}.
Arguments OpIncoming {P}. Arguments OpConnect {P}. Arguments OpChannelOpen {P}.
Arguments OpChannelError {P}. Arguments OpChannelData {P}.
Arguments OpChannelClose {P}. Arguments OpSendMessage {P}.
Arguments OpBroadcast {P}. Arguments OpDisconnectFrom {P}.
Arguments OpDisconnect {P}.

Definition conn_step {P} (op : ConnOp P) (c : WebRTCConnection)
  : WebRTCConnection * list (Effect P) :=
  match op with
  | OpInitialize => initialize c
  | OpPeerOpen i => peer_on_open i c
  | OpPeerError e => peer_on_error e c
  | OpIncoming conn => handleIncomingConnection conn c
  | OpConnect remotePeerId => connect remotePeerId c
  | OpChannelOpen dialled conn => conn_on_open dialled conn c
  | OpChannelError dialled conn e => if dialled then conn_on_error conn e c else (c, [])
  | OpChannelData conn data => conn_on_data conn data c
  | OpChannelClose conn => conn_on_close conn c
  | OpSendMessage peerId message => (c, snd (sendMessage peerId message c))
  | OpBroadcast message => (c, snd (broadcast message c))
  | OpDisconnectFrom peerId => disconnectFrom peerId c
  | OpDisconnect => disconnect c
  end.

Fixpoint conn_run {P} (ops : list (ConnOp P)) (c : WebRTCConnection)
  : WebRTCConnection :=
  match ops with
  | [] => c
  | op :: ops' => conn_run ops' (fst (conn_step op c))
  end.

(** What happens within one session of a peer: everything but a new
    [initialize()] with the open event that answers it, and
    [disconnect()]. *)
Definition within_session {P} (op : ConnOp P) : bool :=
  match op with
  | OpInitialize | OpPeerOpen _ | OpDisconnect => false
  | _ => true
  end.

(** An attempt to send on a channel, whatever came of it. *)
Definition attempt {P} (e : Effect P) : option (string * P * bool) :=
  match e with
  | ConnSend to m => Some (to, m, true)
  | ConnSendThrew to m => Some (to, m, false)
  | _ => None
  end.

Definition is_callback {P} (e : Effect P) : bool :=
  match e with
  | OnJoin _ _ | OnLeave _ | OnMessage _ _ | OnError _ => true
  | _ => false
  end.

Definition is_console {P} (e : Effect P) : bool :=
  match e with
  | Console _ _ => true
  | _ => false
  end.

(** ** chat.tsx: the effect that acquires the identity

    [retryCount] and [MAX_RETRIES] are locals of the effect, shared by
    every run of [initializePeer] that the effect starts.  They are read
    and written by the peer's error listener only.  [initializePeer],
    which the retry timer runs again, and the listeners it registers for
    the peer's error, disconnected and close events are embedded.  The
    React state they assign is kept as fields. *)
Module Chat.

Definition MAX_RETRIES : nat := 3.

Record State := mkState {
  retryCount : nat;
  isConnected : bool;
  isConnecting : bool;
  connectionError : option string;
  connectionDetails : string
}.

Inductive Callback := InitializePeer.

Inductive Out :=
| ConsoleLog (text : string)
| ConsoleError (text : string)
| SetTimeout (callback : Callback) (ms : nat)
| NewPeer (peerId : string)
| Reconnect                         (* newPeer.reconnect() *)
| ClearInterval                     (* clearInterval(checkConnectionId) *).

(** The state when the effect starts: [useState] defaults. *)
Definition initial : State := mkState 0 false true None "".

(** [s.includes(sub)] *)
Definition includes (sub s : string) : bool :=
  match String.index 0 sub s with
  | Some _ => true
  | None => false
  end.

(** [err.type || err.message || '未知错误'] *)
Definition describe (err : JsError) : string :=
  if nonempty (err_type err) then err_type err
  else if nonempty (err_message err) then err_message err
  else "未知错误".

(** The test of the fourth branch of the error listener:
    [err.type === 'server-error' ||
     (err.message && err.message.includes('is taken'))]. *)
Definition id_taken_test (err : JsError) : bool :=
  String.eqb (err_type err) "server-error"
  || (nonempty (err_message err) && includes "is taken" (err_message err)).

(** [initializePeer]: the three assignments at its start, then the
    branch on what [await checkPeerJSServer()] resolved to
    ([serverAvailable]); [peerId] is what [generatePeerId] returned. *)
Definition initializePeer (serverAvailable : bool) (peerId : string) (st : State)
  : State * list Out :=
  if serverAvailable
  then (mkState (retryCount st) (isConnected st) true None "正在初始化连接...",
        [NewPeer peerId])
  else (mkState (retryCount st) (isConnected st) false
          (Some "无法连接到信令服务器，请检查网络连接") "检查连接状态...", []).

(** [newPeer.on('error', err => ...)] *)
Definition on_error (err : JsError) (st : State) : State * list Out :=
  let done (e d : string) :=
    (mkState (retryCount st) (isConnected st) false (Some e) d,
     [ConsoleError "Peer错误:"]) in
  if String.eqb (err_type err) "peer-unavailable" then
    done "找不到指定的房间，请检查房间ID是否正确" "房间不存在或已关闭"
  else if String.eqb (err_type err) "disconnected" then
    done "与信令服务器的连接已断开" "连接中断"
  else if String.eqb (err_type err) "network" then
    done "网络连接问题，请检查您的网络" "网络异常"
  else if id_taken_test err then
    if (retryCount st <? MAX_RETRIES)%nat then
      let n := pretty (retryCount st + 1)%nat +:+ "/" +:+ pretty MAX_RETRIES in
      (mkState (retryCount st + 1)%nat (isConnected st) (isConnecting st)
         (connectionError st) ("ID冲突，尝试重新连接 (" +:+ n +:+ ")..."),
       [ConsoleError "Peer错误:";
        ConsoleLog ("ID被占用，尝试重新连接 (" +:+ n +:+ ")...");
        SetTimeout InitializePeer 1000])
    else
      done "无法创建连接：多次尝试后ID仍被占用，请刷新页面重试" "无法创建唯一连接"
  else
    done ("创建连接失败: " +:+ describe err) "连接异常".

(** An identity-taken failure: an error that the listener takes to the
    fourth branch. *)
Definition identity_taken (err : JsError) : bool :=
  negb (String.eqb (err_type err) "peer-unavailable")
  && negb (String.eqb (err_type err) "disconnected")
  && negb (String.eqb (err_type err) "network")
  && id_taken_test err.

(** [newPeer.on('disconnected', ...)] *)
Definition on_disconnected (st : State) : State * list Out :=
  (mkState (retryCount st) (isConnected st) (isConnecting st) (connectionError st)
     "重新连接中...",
   [ConsoleLog "与信令服务器的连接已断开，尝试重新连接..."; Reconnect]).

Definition closed_text : string := "连接已关闭".

(** [!connectionError]: [null] and the empty string are falsy. *)
Definition no_error (e : option string) : bool :=
  match e with
  | None => true
  | Some s => String.eqb s ""
  end.

(** [newPeer.on('close', ...)].  The [connectionError] that its guard
    reads is a constant of the closure: the value in the render whose
    effect registered the listener ([seen]), not the state when the
    listener runs. *)
Definition on_close (seen : option string) (st : State) : State * list Out :=
  (mkState (retryCount st) false false
     (if no_error seen then Some closed_text else connectionError st)
     (connectionDetails st),
   [ConsoleLog "Peer连接已关闭"; ClearInterval]).

(** What the effect goes through: a run of [initializePeer], or an
    event of the peer it made.  (PeerJS, on an identity that is taken,
    emits the error, destroys the peer and so emits disconnected and
    close, in this order.) *)
Inductive Event :=
| RunInitializePeer (serverAvailable : bool) (peerId : string)
| PeerFailed (err : JsError)
| PeerDisconnected
| PeerClosed.

Definition step (seen : option string) (ev : Event) (st : State) : State * list Out :=
  match ev with
  | RunInitializePeer a p => initializePeer a p st
  | PeerFailed err => on_error err st
  | PeerDisconnected => on_disconnected st
  | PeerClosed => on_close seen st
  end.

Fixpoint run (seen : option string) (evs : list Event) (st : State)
  : State * list Out :=
  match evs with
  | [] => (st, [])
  | ev :: evs' =>
      let '(st1, o1) := step seen ev st in
      let '(st2, o2) := run seen evs' st1 in
      (st2, o1 ++ o2)
  end.

Definition is_retry (o : Out) : bool :=
  match o with
  | SetTimeout InitializePeer _ => true
  | _ => false
  end.

Definition is_identity_failure (ev : Event) : bool :=
  match ev with
  | PeerFailed err => identity_taken err
  | _ => false
  end.

Definition exhausted_text : string :=
  "无法创建连接：多次尝试后ID仍被占用，请刷新页面重试".

End Chat.

(** The four tags of the [switch] in [handleRoomMessage]. *)
Definition known_tag (t : string) : bool :=
  String.eqb t "JOIN" || String.eqb t "LEAVE" || String.eqb t "CHAT"
  || String.eqb t "USER_LIST".

(** A payload that [handleRoomMessage] takes for malformed (no truthy
    [type]) or whose [type] is none of the four tags. *)
Definition bad_frame (data : JsVal) : Prop :=
  truthy data = false
  ∨ truthy (prop "type" data) = false
  ∨ (∀ t, prop "type" data = JStr t → known_tag t = false).

(** ** Concrete rooms and connections, for the examples *)
Module Examples.
Definition bob : DataConnection := mkDataConnection "bob" false.
Definition carol : DataConnection := mkDataConnection "carol" true.
Definition dave : DataConnection := mkDataConnection "dave" false.

(** An initialised connection with three channels; the one to carol
    throws on [send]. *)
Definition mesh : WebRTCConnection :=
  mkWebRTCConnection (Some (mkPeer (Some "me")))
    [("bob", bob); ("carol", carol); ("dave", dave)] CONNECTED "me".

Definition me_options : RoomOptions := mkRoomOptions "me" "me" "Me".

(** The host's room right after its constructor. *)
Definition fresh_room : Room := Room_new me_options.

(** The host's room with bob, carol and dave connected and known. *)
Definition full_room : Room :=
  mkRoom mesh "me" (mkUserInfo "me" "Me")
    [("me", Own); ("bob", Sent (mkUserInfo "bob" "Bob"));
     ("carol", Sent (mkUserInfo "carol" "Carol"));
     ("dave", Sent (mkUserInfo "dave" "Dave"))]
    me_options 0%Z.

Definition bob_info : UserInfo := mkUserInfo "bob" "Bob".

(** The host's room once bob has connected and announced itself. *)
Definition host_with_bob : Room :=
  mkRoom
    (mkWebRTCConnection (Some (mkPeer (Some "me"))) [("bob", bob)] CONNECTED "me")
    "me" (mkUserInfo "me" "Me")
    [("me", Own); ("bob", Sent bob_info)]
    me_options 0%Z.

Definition carol_info : UserInfo := mkUserInfo "carol" "Carol".

(** Two deliveries that agree with each other and with the fresh room. *)
Definition bob_joins : string * RoomMessage := ("bob", JOIN bob_info).
Definition bob_lists : string * RoomMessage :=
  ("bob", USER_LIST [bob_info; carol_info; mkUserInfo "me" "Me"]).

(** Two lists that give zoe two display names. *)
Definition zoe_as_zoe : string * RoomMessage :=
  ("bob", USER_LIST [mkUserInfo "zoe" "Zoe"]).
Definition zoe_as_zed : string * RoomMessage :=
  ("carol", USER_LIST [mkUserInfo "zoe" "Zed"]).

(** The error PeerJS raises when the identity is registered already
    (the message quotes the identity). *)
Definition quote : string := String (Ascii.ascii_of_nat 34) EmptyString.
Definition id_taken : JsError :=
  mkJsError "unavailable-id" ("ID " +:+ quote +:+ "room-1" +:+ quote +:+ " is taken").

(** What PeerJS fires on a peer whose identity is taken. *)
Definition collision : list Chat.Event :=
  [Chat.PeerFailed id_taken; Chat.PeerDisconnected; Chat.PeerClosed].

(** Three collisions, each followed by the run of [initializePeer] that
    the timer starts. *)
Definition three_collisions : list Chat.Event :=
  Chat.RunInitializePeer true "room-1" :: collision
  ++ Chat.RunInitializePeer true "room-1" :: collision
  ++ Chat.RunInitializePeer true "room-1" :: collision
  ++ [Chat.RunInitializePeer true "room-1"].

Definition hello : RoomMessage := CHAT (mkMessage 1 "Me" "hi" 1700000000000).
End Examples.

(** ** More of connection.ts: [on(events)]

    A [ConnectionEventHandlers] object has, for each of the four names,
    no such property, or the property with a function or with
    [undefined] as its value.  [H] is the type of the functions. *)
Module Subscription.
Section Handlers.
Context {H : Type}.

Record ConnectionEventHandlers := mkHandlers {
  onConnect : option (option H);
  onDisconnect : option (option H);
  onMessage : option (option H);
  onError : option (option H)
}.

(** One name of [{ ...a, ...b }]: the property of [b] when it has one. *)
Definition spread (a b : option (option H)) : option (option H) :=
  match b with
  | Some v => Some v
  | None => a
  end.

(** [on(events)]: the new [this.events], from the current one. *)
Definition on (events current : ConnectionEventHandlers) : ConnectionEventHandlers :=
  mkHandlers (spread (onConnect current) (onConnect events))
             (spread (onDisconnect current) (onDisconnect events))
             (spread (onMessage current) (onMessage events))
             (spread (onError current) (onError events)).

(** The function that [this.events.onX?.(...)] calls, if any. *)
Definition called (slot : option (option H)) : option H :=
  match slot with
  | Some (Some h) => Some h
  | _ => None
  end.

(** [events = {}], the field's initial value. *)
Definition no_events : ConnectionEventHandlers := mkHandlers None None None None.
End Handlers.
Arguments ConnectionEventHandlers : clear implicits.
End Subscription.

Definition is_initialize {P} (op : ConnOp P) : bool :=
  match op with
  | OpInitialize => true
  | _ => false
  end.

(** The effects of the operations, in order. *)
Fixpoint conn_trace {P} (ops : list (ConnOp P)) (c : WebRTCConnection)
  : list (Effect P) :=
  match ops with
  | [] => []
  | op :: ops' => snd (conn_step op c) ++ conn_trace ops' (fst (conn_step op c))
  end.

Definition is_close {P} (e : Effect P) : bool :=
  match e with
  | ConnClose _ => true
  | _ => false
  end.

Definition is_dial {P} (e : Effect P) : bool :=
  match e with
  | PeerConnect _ => true
  | _ => false
  end.

(** ** More views of the room *)

(** Every entry of [users] is under the identity of the member it
    holds. *)
Definition keyed (r : Room) : Prop :=
  ∀ k x, (k, x) ∈ users r → id (deref r x) = k.

(** Two mappings that give the same member where both have one. *)
Definition compatible (m1 m2 : gmap string UserInfo) : Prop :=
  ∀ k u v, m1 !! k = Some u → m2 !! k = Some v → u = v.

(** The two frames that [onConnect] sends on a new channel, in order. *)
Definition greeting (r : Room) : list RoomMessage :=
  [JOIN (userInfo r); USER_LIST (getUsers r)].

Definition is_send {P} (e : Effect P) : bool :=
  match e with
  | ConnSend _ _ | ConnSendThrew _ _ => true
  | _ => false
  end.

(** The Map of channels as its writers leave it: every channel under
    its own identity, no key twice. *)
Definition channels_kept (c : WebRTCConnection) : Prop :=
  (∀ k conn, (k, conn) ∈ connections c → conn_peer conn = k)
  ∧ NoDup (JsMap.keys (connections c)).

(** For each channel, in the order of the Map, whose identity is a
    member: a LEAVE frame with that identity on each channel after
    it. *)
Fixpoint farewells (member : string → bool) (entries : JsMap DataConnection)
  : list (string * RoomMessage * bool) :=
  match entries with
  | [] => []
  | (peerId, _) :: rest =>
      (if member peerId
       then (λ entry, (entry.1, LEAVE peerId, negb (send_throws entry.2))) <$> rest
       else [])
      ++ farewells member rest
  end.

(** The Map [users] as it should be: every member under its own
    identity, no key twice. *)
Definition well_kept (r : Room) : Prop :=
  keyed r ∧ NoDup (JsMap.keys (users r)).

(** ** JavaScript strings where their characters matter

    A string as its UTF-16 code units.  [trim] removes the code units
    that ECMAScript calls WhiteSpace or LineTerminator from both ends. *)
Module JsString.

Definition is_white_space (c : N) : bool :=
  ((c =? 9) || (c =? 10) || (c =? 11) || (c =? 12) || (c =? 13) || (c =? 32)
   || (c =? 160) || (c =? 5760) || ((8192 <=? c) && (c <=? 8202))
   || (c =? 8232) || (c =? 8233) || (c =? 8239) || (c =? 8287)
   || (c =? 12288) || (c =? 65279))%N.

Fixpoint trimStart (s : list N) : list N :=
  match s with
  | [] => []
  | c :: s' => if is_white_space c then trimStart s' else s
  end.

Definition trimEnd (s : list N) : list N := reverse (trimStart (reverse s)).

Definition trim (s : list N) : list N := trimEnd (trimStart s).

(** The code units of an ASCII literal. *)
Definition of_ascii (s : string) : list N :=
  (λ a, N.of_nat (Ascii.nat_of_ascii a)) <$> String.list_ascii_of_string s.

(** [!s] for a string: the empty string is falsy. *)
Definition is_empty (s : list N) : bool :=
  match s with
  | [] => true
  | _ => false
  end.

End JsString.

(** ** home.tsx *)
Module Home.

(** The room identity of [handleCreate]; [k] is what
    [Math.floor(Math.random() * 90000)] gave. *)
Definition created_id (k : N) : string := pretty (k + 10000)%N.

(** [handleCreate]: where it navigates. *)
Definition handleCreate (k : N) : string :=
  "/chat?room=" +:+ created_id k +:+ "&host=true".

(** [handleJoin]: where it navigates, if it does. *)
Definition handleJoin (roomId : list N) : option (list N) :=
  if JsString.is_empty (JsString.trim roomId) then None
  else Some (JsString.of_ascii "/chat?room=" ++ JsString.trim roomId).

Definition is_digit (a : Ascii.ascii) : bool :=
  let n := Ascii.nat_of_ascii a in (48 <=? n)%nat && (n <=? 57)%nat.

(** Five decimal digits, the first of them not 0. *)
Definition five_digits (s : string) : bool :=
  match String.list_ascii_of_string s with
  | [a; b; c; d; e] =>
      negb (Ascii.eqb a (Ascii.ascii_of_nat 48)) && is_digit a && is_digit b && is_digit c
      && is_digit d && is_digit e
  | _ => false
  end.

(** [f] holds of [from], [from + 1], ..., [n] numbers in all. *)
Fixpoint all_from (n : nat) (f : N → bool) (from : N) : bool :=
  match n with
  | O => true
  | S n' => f from && all_from n' f (N.succ from)
  end.

End Home.

(** ** chat.tsx: identities, and the input line *)
Module ChatPage.

(** [generatePeerId(isHost, roomId)]; [random] is what
    [Math.random().toString(36).substring(2, 9)] gave and [now] what
    [Date.now()] gave. *)
Definition generatePeerId (isHost : bool) (roomId random : string) (now : N) : string :=
  if isHost then roomId
  else "guest-" +:+ random +:+ "-" +:+ pretty now.

Inductive Who := me | peer.

(** [ChatMessage] of chat.tsx; [cid] is the field [id]. *)
Record ChatMessage := mkChatMessage {
  cid : N;
  user : Who;
  text : list N
}.

(** The state that the input line reads and writes; [connected] says
    whether [connection] holds a channel. *)
Record Page := mkPage {
  messages : list ChatMessage;
  inputValue : list N;
  connected : bool
}.

(** [handleSend]: the page afterwards, and what went to
    [connection?.send]. *)
Definition handleSend (now : N) (p : Page) : Page * list (list N) :=
  if JsString.is_empty (JsString.trim (inputValue p)) then (p, [])
  else
    let newMessage := mkChatMessage now me (JsString.trim (inputValue p)) in
    (mkPage (messages p ++ [newMessage]) [] (connected p),
     if connected p then [JsString.trim (inputValue p)] else []).

(** [addPeerMessage(msg)] for a string [msg] ([String(msg)] is [msg]). *)
Definition addPeerMessage (now : N) (msg : list N) (p : Page) : Page :=
  mkPage (messages p ++ [mkChatMessage now peer msg]) (inputValue p) (connected p).

(** What happens at the input line and on the channel. *)
Inductive Action :=
| Type_ (value : list N)           (* onChange: setInputValue(e.target.value) *)
| Send (now : N)                   (* handleSend *)
| Receive (now : N) (msg : list N) (* conn.on('data', addPeerMessage) *).

Definition act (a : Action) (p : Page) : Page :=
  match a with
  | Type_ value => mkPage (messages p) value (connected p)
  | Send now => fst (handleSend now p)
  | Receive now msg => addPeerMessage now msg p
  end.

Definition acts (l : list Action) (p : Page) : Page := foldl (λ q a, act a q) p l.

End ChatPage.

(** ** More concrete inputs, for the examples *)
Module MoreExamples.

(** A second channel of bob's, whose [send] throws. *)
Definition bob_again : DataConnection := mkDataConnection "bob" true.

Definition zoe : UserInfo := mkUserInfo "zoe" "Zoe".

(** A member with the local identity of [Examples.full_room] and
    another display name. *)
Definition impostor : UserInfo := mkUserInfo "me" "Not me".

(** A joiner's room, and a room that lets the server choose its
    identity, each after [join()] has made the peer. *)
Definition guest_room : Room :=
  fst (join_begin (Room_new (mkRoomOptions "room-1" "guest-1" "Guest"))).
Definition anonymous_room : Room :=
  fst (join_begin (Room_new (mkRoomOptions "room-1" "" "Guest"))).

(** Bob's own room, new. *)
Definition bobs_room : Room := Room_new (mkRoomOptions "me" "bob" "Bob").

Definition first_handlers : Subscription.ConnectionEventHandlers nat :=
  Subscription.mkHandlers (Some (Some 1%nat)) (Some (Some 2%nat)) None None.
Definition second_handlers : Subscription.ConnectionEventHandlers nat :=
  Subscription.mkHandlers (Some (Some 3%nat)) None None (Some None).

Definition network_error : JsError := mkJsError "network" "Lost connection to server".

(** The code units of "  hi " and of "12345 ". *)
Definition padded_hi : list N := [32; 32; 104; 105; 32]%N.
Definition padded_room : list N := [49; 50; 51; 52; 53; 32]%N.

Definition typing_page : ChatPage.Page := ChatPage.mkPage [] padded_hi true.
Definition empty_page : ChatPage.Page := ChatPage.mkPage [] [] true.

Definition a_conversation : list ChatPage.Action :=
  [ChatPage.Type_ padded_hi; ChatPage.Send 1700000000000;
   ChatPage.Receive 1700000000001 [104; 111]%N; ChatPage.Send 1700000000002].

Definition no_initialize : list (ConnOp RoomMessage) :=
  [OpConnect "host"; OpChannelData Examples.bob JNull; OpBroadcast Examples.hello].

End MoreExamples.

(** * Properties *)

(** ** The Map operations *)
Section JsMapFacts.
Context {V : Type}.
Implicit Types (m : list (string * V)) (k : string) (v : V).

Lemma eqb_decide k k' : String.eqb k k' = bool_decide (k = k').
Proof.
  destruct (String.eqb_spec k k').
  - by rewrite bool_decide_eq_true_2.
  - by rewrite bool_decide_eq_false_2.
Qed.

Lemma get_to_gmap m k : JsMap.to_gmap m !! k = JsMap.get k m.
Proof.
  unfold JsMap.to_gmap.
  induction m as [|[k' v'] m IH]; simpl.
  - apply lookup_empty.
  - destruct (String.eqb_spec k k') as [->|Hne].
    + apply lookup_insert_eq.
    + rewrite lookup_insert_ne by congruence. exact IH.
Qed.

Lemma has_get m k : JsMap.has k m = bool_decide (is_Some (JsMap.get k m)).
Proof.
  unfold JsMap.has. destruct (JsMap.get k m).
  - by rewrite bool_decide_eq_true_2.
  - rewrite bool_decide_eq_false_2; [done|]. by intros [? ?].
Qed.

Lemma has_true m k : JsMap.has k m = true ↔ is_Some (JsMap.get k m).
Proof. rewrite has_get. apply bool_decide_eq_true. Qed.

Lemma has_false m k : JsMap.has k m = false ↔ JsMap.get k m = None.
Proof.
  rewrite has_get, bool_decide_eq_false. split.
  - intros H. destruct (JsMap.get k m); [|done]. destruct H. eauto.
  - intros -> [? ?]. done.
Qed.

Lemma get_set m k k' v :
  JsMap.get k' (JsMap.set k v m) = if decide (k = k') then Some v else JsMap.get k' m.
Proof.
  induction m as [|[k1 v1] m IH]; simpl.
  - destruct (String.eqb_spec k' k); case_decide; congruence.
  - destruct (String.eqb_spec k k1) as [->|Hne]; simpl.
    + destruct (String.eqb_spec k' k1); case_decide; congruence.
    + destruct (String.eqb_spec k' k1) as [->|Hne'].
      * case_decide; congruence.
      * exact IH.
Qed.

Lemma get_delete m k k' :
  JsMap.get k' (JsMap.delete k m) = if decide (k = k') then None else JsMap.get k' m.
Proof.
  induction m as [|[k1 v1] m IH]; simpl.
  - by case_decide.
  - destruct (String.eqb_spec k k1) as [->|Hne]; simpl.
    + rewrite IH. destruct (String.eqb_spec k' k1); case_decide; congruence.
    + destruct (String.eqb_spec k' k1) as [->|Hne'].
      * case_decide; congruence.
      * exact IH.
Qed.

Lemma to_gmap_set m k v : JsMap.to_gmap (JsMap.set k v m) = <[k:=v]> (JsMap.to_gmap m).
Proof.
  apply map_eq. intros k'. rewrite get_to_gmap, get_set, lookup_insert.
  case_decide; [done|]. by rewrite get_to_gmap.
Qed.

Lemma to_gmap_delete m k : JsMap.to_gmap (JsMap.delete k m) = delete k (JsMap.to_gmap m).
Proof.
  apply map_eq. intros k'. rewrite get_to_gmap, get_delete, lookup_delete.
  case_decide; [done|]. by rewrite get_to_gmap.
Qed.

Lemma get_Some_elem_of m k v : JsMap.get k m = Some v → (k, v) ∈ m.
Proof.
  induction m as [|[k1 v1] m IH]; simpl; [done|].
  destruct (String.eqb_spec k k1) as [->|Hne].
  - intros [= ->]. apply list_elem_of_here.
  - intros H. apply list_elem_of_further. by apply IH.
Qed.

Lemma get_None_not_key m k : JsMap.get k m = None ↔ k ∉ JsMap.keys m.
Proof.
  unfold JsMap.keys.
  induction m as [|[k1 v1] m IH]; simpl.
  - split; [intros _; apply not_elem_of_nil | done].
  - rewrite not_elem_of_cons. destruct (String.eqb_spec k k1) as [->|Hne].
    + split; [done | intros [? _]; done].
    + rewrite IH. tauto.
Qed.

Lemma keys_delete_not_elem m k : k ∉ JsMap.keys (JsMap.delete k m).
Proof. apply get_None_not_key. rewrite get_delete. by case_decide. Qed.

(** Uniqueness of keys is kept. *)
Lemma keys_set m k v :
  JsMap.keys (JsMap.set k v m)
  = if JsMap.has k m then JsMap.keys m else JsMap.keys m ++ [k].
Proof.
  unfold JsMap.keys, JsMap.has.
  induction m as [|[k1 v1] m IH]; [done|].
  cbn [JsMap.set JsMap.get].
  destruct (String.eqb_spec k k1) as [->|Hne]; [done|].
  rewrite fmap_cons, IH. by destruct (JsMap.get k m).
Qed.

Lemma NoDup_keys_set m k v :
  NoDup (JsMap.keys m) → NoDup (JsMap.keys (JsMap.set k v m)).
Proof.
  intros Hnd. rewrite keys_set. destruct (JsMap.has k m) eqn:Hhas; [done|].
  apply NoDup_app. split_and!; [done| |apply NoDup_singleton].
  intros x Hx ->%list_elem_of_singleton.
  apply has_false, get_None_not_key in Hhas. done.
Qed.

Lemma keys_delete_sublist m k : sublist (JsMap.keys (JsMap.delete k m)) (JsMap.keys m).
Proof.
  unfold JsMap.keys.
  induction m as [|[k1 v1] m IH]; [done|].
  cbn [JsMap.delete]. destruct (String.eqb k k1); rewrite ?fmap_cons.
  - by apply sublist_cons.
  - by apply sublist_skip.
Qed.

Lemma NoDup_keys_delete m k :
  NoDup (JsMap.keys m) → NoDup (JsMap.keys (JsMap.delete k m)).
Proof. intros Hnd. eapply sublist_NoDup; [exact Hnd | apply keys_delete_sublist]. Qed.
End JsMapFacts.

(** ** The connection: disconnect, send, broadcast, state *)
Section ConnectionFacts.
Context {P : Type}.
Implicit Types (c : WebRTCConnection) (m : P).

(** The [forEach] of [disconnect()] touches the Map of channels only,
    and closes every channel it is given. *)
Lemma close_all_frame (entries : JsMap DataConnection) c :
  peer (fst (close_all (P:=P) entries c)) = peer c
  ∧ state (fst (close_all (P:=P) entries c)) = state c
  ∧ userId (fst (close_all (P:=P) entries c)) = userId c.
Proof.
  revert c. induction entries as [|[k conn] rest IH]; intros c; [done|].
  cbn [close_all fst]. destruct (IH (fst (conn_close (P:=P) k conn c))) as (-> & -> & ->).
  done.
Qed.

Lemma close_all_closes (entries : JsMap DataConnection) c (k : string) conn :
  (k, conn) ∈ entries → ConnClose k ∈ snd (close_all (P:=P) entries c).
Proof.
  revert c. induction entries as [|[k' conn'] rest IH]; intros c.
  - by intros ?%elem_of_nil.
  - intros [[= -> ->]|Hin]%elem_of_cons; cbn [close_all snd conn_close].
    + apply list_elem_of_here.
    + apply list_elem_of_further, elem_of_app. right. by apply IH.
Qed.

(** C7. [disconnect()] closes every channel, destroys the peer (which
    releases the identity) and leaves no channel, no peer and the state
    DISCONNECTED; a second [disconnect()] changes nothing and does
    nothing: no channel is closed, the peer is not destroyed again,
    nothing is sent.  [disconnectFrom] on an identity without a channel
    changes nothing and does nothing, and a second [disconnectFrom] of
    the same identity changes nothing and does nothing.  The same for the
    room: a second [leave()] changes nothing and does nothing. *)
Theorem disconnect_idempotent c (peerId : string) :
  let c1 := fst (disconnect (P:=P) c) in
  let c2 := fst (disconnectFrom (P:=P) peerId c) in
  (∀ p, is_Some (JsMap.get p (connections c)) →
        ConnClose p ∈ snd (disconnect (P:=P) c))
  ∧ (is_Some (peer c) → PeerDestroy ∈ snd (disconnect (P:=P) c))
  ∧ connections c1 = [] ∧ peer c1 = None ∧ getState c1 = DISCONNECTED
  ∧ disconnect (P:=P) c1 = (c1, [])
  ∧ (JsMap.get peerId (connections c) = None →
     disconnectFrom (P:=P) peerId c = (c, []))
  ∧ disconnectFrom (P:=P) peerId c2 = (c2, [])
  ∧ (∀ r : Room, leave (fst (leave r)) = (fst (leave r), [])).
Proof.
  cbv zeta. split_and!; try reflexivity.
  - intros p [conn Hp]. unfold disconnect. cbn [snd].
    apply elem_of_app. left. eapply close_all_closes. by apply get_Some_elem_of.
  - intros [x Hx]. unfold disconnect, disconnect_end. cbn [fst snd].
    destruct (close_all_frame (connections c) c) as (-> & _). rewrite Hx.
    apply elem_of_app. right. apply list_elem_of_here.
  - intros Hnone. unfold disconnectFrom. by rewrite Hnone.
  - unfold disconnectFrom.
    destruct (JsMap.get peerId (connections c)) eqn:Hget; cbn.
    + rewrite get_delete. by case_decide.
    + by rewrite Hget.
Qed.

Lemma attempts_broadcast_one m (entry : string * DataConnection) :
  omap attempt (broadcast_one m entry)
  = [(entry.1, m, negb (send_throws entry.2))].
Proof. destruct entry as [p conn]. simpl. by destruct (send_throws conn). Qed.

Lemma elem_of_broadcast m c (e : Effect P) :
  e ∈ snd (broadcast m c) ↔
  ∃ entry, entry ∈ connections c ∧ e ∈ broadcast_one m entry.
Proof.
  unfold broadcast; simpl.
  induction (connections c) as [|entry0 l IH]; simpl.
  - split; [by intros ?%elem_of_nil | by intros (? & ?%elem_of_nil & _)].
  - rewrite elem_of_app, IH. split.
    + intros [He|(entry & Hentry & He)].
      * exists entry0. split; [apply list_elem_of_here | done].
      * exists entry. split; [by apply list_elem_of_further | done].
    + intros (entry & [->|Hentry]%elem_of_cons & He); eauto.
Qed.

(** C8, as the code has it.  [sendMessage] returns a boolean: true
    exactly when the identity has a channel and [send] on it did not
    throw; it makes at most that one attempt.  [broadcast] returns
    nothing.  It makes exactly one attempt per channel, in the order of
    the Map, whatever the outcome of the attempts before it; so the
    payload is sent on every channel whose [send] does not throw, and
    each channel whose [send] throws costs one line on the console and
    nothing else. *)
Theorem send_and_broadcast_best_effort m c :
  (∀ p, fst (sendMessage p m c) = true ↔
        ∃ conn, JsMap.get p (connections c) = Some conn ∧ send_throws conn = false)
  ∧ (∀ p, omap attempt (snd (sendMessage p m c))
          = match JsMap.get p (connections c) with
            | Some conn => [(p, m, negb (send_throws conn))]
            | None => []
            end)
  ∧ fst (broadcast m c) = tt
  ∧ omap attempt (snd (broadcast m c))
    = (λ entry, (entry.1, m, negb (send_throws entry.2))) <$> connections c
  ∧ (∀ p conn, (p, conn) ∈ connections c → send_throws conn = false →
               ConnSend p m ∈ snd (broadcast m c))
  ∧ (∀ p conn, (p, conn) ∈ connections c → send_throws conn = true →
               ConnSendThrew p m ∈ snd (broadcast m c)
               ∧ Console ERROR ("Failed to broadcast message to peer " +:+ p +:+ ":")
                 ∈ snd (broadcast m c))
  ∧ Forall (λ e, is_Some (attempt e) ∨ is_console e = true) (snd (broadcast m c)).
Proof.
  split_and!.
  - intros p. unfold sendMessage.
    destruct (JsMap.get p (connections c)) as [conn|]; simpl.
    + destruct (send_throws conn) eqn:Hs; simpl.
      * split; [done|]. intros (conn' & [= <-] & Hc). congruence.
      * split; [eauto|done].
    + split; [done|]. by intros (? & ? & _).
  - intros p. unfold sendMessage.
    destruct (JsMap.get p (connections c)) as [conn|]; simpl; [|done].
    by destruct (send_throws conn).
  - by destruct (broadcast m c) as [[] ?].
  - unfold broadcast; simpl.
    induction (connections c) as [|entry l IH]; [done|].
    simpl. rewrite omap_app, attempts_broadcast_one, IH. done.
  - intros p conn Hin Hs. apply elem_of_broadcast. exists (p, conn).
    split; [done|]. simpl. rewrite Hs. apply list_elem_of_here.
  - intros p conn Hin Hs.
    split; apply elem_of_broadcast; exists (p, conn); (split; [done|]);
      simpl; rewrite Hs.
    + apply list_elem_of_here.
    + apply list_elem_of_further, list_elem_of_here.
  - apply Forall_forall. intros e (entry & _ & He)%elem_of_broadcast.
    destruct entry as [p conn]. simpl in He.
    destruct (send_throws conn).
    + apply elem_of_cons in He as [->|He]; [left; by eexists|].
      apply list_elem_of_singleton in He as ->. by right.
    + apply list_elem_of_singleton in He as ->. left; by eexists.
Qed.

Lemma within_session_keeps_connecting (op : ConnOp P) c :
  within_session op = true →
  state c = CONNECTING → state (fst (conn_step op c)) = CONNECTING.
Proof.
  intros Hop Hc. destruct op; try discriminate Hop; simpl; try done.
  - unfold connect. by destruct (peer c).
  - by destruct dialled.
  - unfold disconnectFrom. by destruct (JsMap.get peerId (connections c)).
Qed.

(** C10. Once [initialize()] has succeeded, a [connect] puts the state
    at CONNECTING, and there it stays through every listener and every
    method of the session (the open of the channel included) until
    [disconnect()] puts it at DISCONNECTED.  The one assignment of
    CONNECTED is in the listener of the peer's open event, which
    answers [initialize()]. *)
Theorem connect_leaves_connecting c (remotePeerId : string) (ops : list (ConnOp P)) :
  is_Some (peer c) →
  getState c = CONNECTED →
  forallb within_session ops = true →
  let c1 := fst (connect (P:=P) remotePeerId c) in
  getState c1 = CONNECTING
  ∧ getState (conn_run ops c1) = CONNECTING
  ∧ getState (fst (conn_step (P:=P)
                     (OpChannelOpen true (mkDataConnection remotePeerId false))
                     (conn_run ops c1))) = CONNECTING
  ∧ getState (fst (disconnect (P:=P) (conn_run ops c1))) = DISCONNECTED.
Proof.
  intros [x Hx] _ Hops. simpl.
  assert (Hc1 : state (fst (connect (P:=P) remotePeerId c)) = CONNECTING).
  { unfold connect. by rewrite Hx. }
  assert (Hrun : ∀ c', state c' = CONNECTING →
                       state (conn_run ops c') = CONNECTING).
  { clear Hc1. induction ops as [|op ops IH]; intros c' Hc'; [done|].
    simpl in Hops. apply andb_prop in Hops as [Hop Hrest]. simpl.
    apply IH; [done|]. by apply within_session_keeps_connecting. }
  unfold getState. split_and!; [done|by apply Hrun| |done].
  simpl. by apply Hrun.
Qed.
End ConnectionFacts.

(** A joiner's room, with the channel to the host open, reports
    CONNECTING. *)
Example joiner_reports_connecting :
  (getConnectionState ∘ fst)
    <$> run [CallJoin; PeerOpen "guest-1";
             ChannelOpen true (mkDataConnection "room-1" false)]
          (Room_new (mkRoomOptions "room-1" "guest-1" "Guest"))
  = Some CONNECTING.
Proof. reflexivity. Qed.

(** C8, as stated, fails: what [broadcast] returns tells nothing about
    any channel.  No reading of its result gives the outcome per
    channel. *)
Lemma broadcast_returns_no_outcome :
  ¬ ∃ outcome : unit → string → bool,
      ∀ (c : WebRTCConnection) (m : RoomMessage) p conn,
        JsMap.get p (connections c) = Some conn →
        outcome (fst (broadcast m c)) p = negb (send_throws conn).
Proof.
  intros (outcome & H).
  pose proof (H Examples.mesh Examples.hello "bob" Examples.bob eq_refl) as Hb.
  pose proof (H (mkWebRTCConnection None [("bob", Examples.carol)] CONNECTED "me")
                Examples.hello "bob" Examples.carol eq_refl) as Hc.
  simpl in Hb, Hc. congruence.
Qed.

Lemma disconnect_idempotent_witness :
  disconnectFrom (P:=RoomMessage) "zed" Examples.mesh = (Examples.mesh, [])
  ∧ PeerDestroy (P:=RoomMessage) ∈ snd (disconnect Examples.mesh)
  ∧ ConnClose (P:=RoomMessage) "carol" ∈ snd (disconnect Examples.mesh).
Proof.
  destruct (disconnect_idempotent (P:=RoomMessage) Examples.mesh "zed")
    as (Hclose & Hdestroy & _ & _ & _ & _ & Hfrom & _ & _).
  split_and!.
  - apply Hfrom. reflexivity.
  - apply Hdestroy. simpl. eauto.
  - apply Hclose. simpl. eauto.
Defined.

Lemma send_and_broadcast_best_effort_witness :
  ConnSend "dave" Examples.hello ∈ snd (broadcast Examples.hello Examples.mesh)
  ∧ ConnSendThrew "carol" Examples.hello ∈ snd (broadcast Examples.hello Examples.mesh).
Proof.
  destruct (send_and_broadcast_best_effort Examples.hello Examples.mesh)
    as (_ & _ & _ & _ & Hok & Hbad & _).
  split.
  - apply (Hok "dave" Examples.dave); [|reflexivity].
    do 2 apply list_elem_of_further. apply list_elem_of_here.
  - apply (Hbad "carol" Examples.carol); [|reflexivity].
    apply list_elem_of_further, list_elem_of_here.
Defined.

Lemma connect_leaves_connecting_witness :
  getState
    (conn_run (P:=RoomMessage)
       [OpChannelOpen true (mkDataConnection "host" false);
        OpChannelData (mkDataConnection "host" false) JNull;
        OpBroadcast Examples.hello;
        OpChannelClose (mkDataConnection "host" false)]
       (fst (connect (P:=RoomMessage) "host" Examples.mesh)))
  = CONNECTING.
Proof.
  apply (connect_leaves_connecting (P:=RoomMessage) Examples.mesh "host").
  - simpl. eauto.
  - reflexivity.
  - reflexivity.
Defined.

(** ** The room: frames and channel events *)

Lemma with_connection_same r : with_connection (connection r) r = r.
Proof. by destruct r. Qed.

Lemma with_users_same r : with_users (users r) r = r.
Proof. by destruct r. Qed.

Lemma handleRoomMessage_encode (f : RoomMessage) (fromPeerId : string) (r : Room) :
  handleRoomMessage (encode f) fromPeerId r = Some (deliver f fromPeerId r).
Proof.
  destruct f as [u|i|m|us]; try reflexivity.
  - by destruct u.
  - by destruct m.
  - unfold handleRoomMessage; simpl.
    assert (Hus : mapM as_UserInfo (map of_UserInfo us) = Some us).
    { apply mapM_Some. induction us as [|[i n] us IH]; constructor; done. }
    by rewrite Hus.
Qed.

Lemma step_ChannelData conn data r :
  step (ChannelData conn data) r
  = if typeof_object data
    then '(r', t) ← handleRoomMessage data (conn_peer conn) r; Some (r', t ++ [])
    else Some (r, []).
Proof.
  unfold step, via_connection, conn_on_data.
  rewrite with_connection_same. by destruct (typeof_object data).
Qed.

Lemma step_ChannelClose conn r :
  step (ChannelClose conn) r
  = Some (onDisconnect (conn_peer conn)
            (with_connection
               (with_connections
                  (JsMap.delete (conn_peer conn) (connections (connection r)))
                  (connection r)) r)).
Proof.
  unfold step, via_connection, conn_on_close; simpl.
  destruct (onDisconnect _ _) as [r' t]. simpl. by rewrite app_nil_r.
Qed.

Lemma bad_frame_handled (data : JsVal) (fromPeerId : string) (r : Room) :
  bad_frame data →
  ∃ l text, l ≠ LOG ∧
    handleRoomMessage data fromPeerId r = Some (r, [Console l text]).
Proof.
  intros Hbad. unfold handleRoomMessage.
  destruct (negb (truthy data) || negb (truthy (prop "type" data))) eqn:Hguard.
  { by exists ERROR, "Received invalid message format". }
  apply orb_false_elim in Hguard as [Hd Ht].
  apply negb_false_iff in Hd, Ht.
  destruct Hbad as [Hbad|[Hbad|Hbad]]; [congruence|congruence|].
  exists WARN, "Unknown message type". split; [done|].
  destruct (prop "type" data) as [| | | |t| |]; try done.
  specialize (Hbad t eq_refl). unfold known_tag in Hbad.
  repeat (apply orb_false_elim in Hbad as [Hbad ?]).
  by repeat match goal with
            | H : String.eqb _ _ = false |- _ => rewrite H; clear H
            end.
Qed.

(** C9. A payload without a truthy [type], or with a [type] that is none
    of the four tags, costs one line on the console (an error for the
    first, a warning for the second) and nothing else: the handler
    returns, the room is the same room (members, counter, connection),
    no callback runs and nothing is sent.  The same holds for the channel
    event that carries it. *)
Theorem bad_frame_dropped (data : JsVal) (fromPeerId : string) (r : Room) :
  bad_frame data →
  (∃ l text, l ≠ LOG ∧
     handleRoomMessage data fromPeerId r = Some (r, [Console l text]))
  ∧ (∀ conn, ∃ t, step (ChannelData conn data) r = Some (r, t)
                  ∧ Forall (λ e, is_console e = true) t).
Proof.
  intros Hbad. split; [by apply bad_frame_handled|].
  intros conn. rewrite step_ChannelData.
  destruct (typeof_object data).
  - destruct (bad_frame_handled data (conn_peer conn) r Hbad) as (l & text & _ & ->).
    simpl. eexists. split; [done|]. by repeat constructor.
  - exists []. split; [done|constructor].
Qed.

Lemma bad_frame_dropped_witness :
  (∃ l text, l ≠ LOG ∧
     handleRoomMessage (JObj [("type", JStr "PING")]) "bob" Examples.full_room
     = Some (Examples.full_room, [Console l text]))
  ∧ (∀ conn, ∃ t,
       step (ChannelData conn (JObj [("type", JStr "PING")])) Examples.full_room
       = Some (Examples.full_room, t)
       ∧ Forall (λ e, is_console e = true) t).
Proof.
  apply (bad_frame_dropped (JObj [("type", JStr "PING")]) "bob" Examples.full_room).
  right; right. intros t [= <-]. reflexivity.
Defined.

Lemma callbacks_broadcast (m : RoomMessage) (c : WebRTCConnection) :
  List.filter is_callback (snd (broadcast m c)) = [].
Proof.
  unfold broadcast; simpl.
  induction (connections c) as [|[p conn] l IH]; [done|].
  simpl. rewrite List.filter_app, IH. simpl. by destruct (send_throws conn).
Qed.

Lemma attempts_broadcast (m : RoomMessage) (c : WebRTCConnection) :
  omap attempt (snd (broadcast m c))
  = (λ entry, (entry.1, m, negb (send_throws entry.2))) <$> connections c.
Proof.
  unfold broadcast; simpl.
  induction (connections c) as [|entry l IH]; [done|].
  simpl. rewrite omap_app, attempts_broadcast_one, IH. done.
Qed.

(** C6. When a channel closes, the connection has removed it from its Map
    before the room hears of it.  If the remote identity is a member, the
    room removes it, calls the leave callback once (and no other
    callback) and attempts LEAVE with that identity on every channel that
    is left, the closed one not among them.  If it is no member, the room
    is as it was, no callback runs and nothing is sent; the console line
    is all. *)
Theorem channel_close_leaves (conn : DataConnection) (r : Room) :
  let p := conn_peer conn in
  let remaining := JsMap.delete p (connections (connection r)) in
  let r1 := with_connection (with_connections remaining (connection r)) r in
  ∃ r' t,
    step (ChannelClose conn) r = Some (r', t)
    ∧ connections (connection r') = remaining
    ∧ (p ∉ JsMap.keys remaining)
    ∧ (hasUser p r = true →
         users r' = JsMap.delete p (users r)
         ∧ hasUser p r' = false
         ∧ List.filter is_callback t = [OnLeave p]
         ∧ omap attempt t
           = ((λ entry, (entry.1, LEAVE p, negb (send_throws entry.2)))
                <$> remaining))
    ∧ (hasUser p r = false →
         r' = r1 ∧ t = [Console LOG ("Disconnected from peer: " +:+ p)]).
Proof.
  cbv zeta. rewrite step_ChannelClose.
  set (p := conn_peer conn).
  set (r1 := with_connection _ r).
  destruct (onDisconnect p r1) as [r' t] eqn:Hon.
  exists r', t. unfold onDisconnect in Hon.
  change (users r1) with (users r) in Hon.
  split; [done|].
  destruct (JsMap.has p (users r)) eqn:Hhas; injection Hon as <- <-.
  - split_and!; [done|apply keys_delete_not_elem| |by unfold hasUser; rewrite Hhas].
    intros _. split_and!.
    + done.
    + unfold hasUser; simpl. apply has_false. rewrite get_delete. by case_decide.
    + cbn. unfold broadcastLeaveMessage. by rewrite callbacks_broadcast.
    + cbn. unfold broadcastLeaveMessage. by rewrite attempts_broadcast.
  - split_and!; [done|apply keys_delete_not_elem|by unfold hasUser; rewrite Hhas|done].
Qed.

Lemma channel_close_leaves_witness :
  ∃ r' t,
    step (ChannelClose Examples.bob) Examples.full_room = Some (r', t)
    ∧ hasUser "bob" r' = false
    ∧ List.filter is_callback t = [OnLeave "bob"]
    ∧ omap attempt t = [("carol", LEAVE "bob", false); ("dave", LEAVE "bob", true)].
Proof.
  destruct (channel_close_leaves Examples.bob Examples.full_room)
    as (r' & t & Hstep & _ & _ & Hknown & _).
  exists r', t. destruct Hknown as (_ & Hgone & Hcb & Hsent); [reflexivity|].
  split_and!; [exact Hstep|exact Hgone|exact Hcb|exact Hsent].
Defined.

(** What [handleJoinMessage] does: the member is stored under its
    identity (whatever was there), the join callback runs, and unless the
    identity is the local one the frame goes to every channel of the
    connection. *)
Lemma handleJoinMessage_spec (user : UserInfo) (fromPeerId : string) (r : Room) :
  let '(r', t) := handleJoinMessage user fromPeerId r in
  users r' = JsMap.set (id user) (Sent user) (users r)
  ∧ connection r' = connection r
  ∧ List.filter is_callback t = [OnJoin (id user) (username user)]
  ∧ omap attempt t
    = if String.eqb (id user) (id (userInfo r)) then []
      else (λ entry, (entry.1, JOIN user, negb (send_throws entry.2)))
             <$> connections (connection r).
Proof.
  unfold handleJoinMessage, broadcastJoinMessage. cbn.
  destruct (String.eqb (id user) (id (userInfo r))); cbn.
  - done.
  - by rewrite callbacks_broadcast, attempts_broadcast.
Qed.

(** C2, at the input where the code departs from it.  The host has one
    channel, to bob.  Bob's own JOIN arrives on it, and the host sends
    the frame back on that very channel. *)
Theorem join_rebroadcast_reaches_subject :
  ∃ r t r' t',
    run [CallJoin; PeerOpen "me"; ChannelOpen false Examples.bob]
      Examples.fresh_room = Some (r, t)
    ∧ getConnectedPeers (connection r) = ["bob"]
    ∧ step (ChannelData Examples.bob (encode (JOIN Examples.bob_info))) r
      = Some (r', t')
    ∧ t' = [OnJoin "bob" "Bob"; ConnSend "bob" (JOIN Examples.bob_info)].
Proof. eexists _, _, _, _. split_and!; reflexivity. Qed.

(** ** What a step can change *)

Lemma handleUserListMessage_frame (us : list UserInfo) (r : Room) :
  ∃ m, fst (handleUserListMessage us r) = with_users m r.
Proof.
  revert r. induction us as [|u us IH]; intros r; simpl.
  - exists (users r). by rewrite with_users_same.
  - destruct (JsMap.has (id u) (users r)); [apply IH|].
    destruct (IH (with_users (JsMap.set (id u) (Sent u) (users r)) r)) as [m Hm].
    destruct (handleUserListMessage us _) as [r'' t]. simpl in *. by exists m.
Qed.

Lemma handleRoomMessage_frame (data : JsVal) (fromPeerId : string) (r r' : Room) (t : Trace) :
  handleRoomMessage data fromPeerId r = Some (r', t) → ∃ m, r' = with_users m r.
Proof.
  assert (Hsame : ∀ t0, Some (r, t0) = Some (r', t) → ∃ m, r' = with_users m r).
  { intros t0 [= <- _]. exists (users r). by rewrite with_users_same. }
  unfold handleRoomMessage.
  destruct (negb (truthy data) || negb (truthy (prop "type" data))); [apply Hsame|].
  destruct (prop "type" data) as [| | | |tag| |]; try apply Hsame.
  destruct (String.eqb tag "JOIN").
  { destruct (as_UserInfo _) as [u|]; [|done]. intros [= <- _]. by eexists. }
  destruct (String.eqb tag "LEAVE").
  { destruct (as_string _) as [u|]; [|done]. cbn. unfold handleLeaveMessage.
    destruct (JsMap.has u (users r)); [|apply Hsame]. intros [= <- _]. by eexists. }
  destruct (String.eqb tag "CHAT").
  { destruct (as_Message _) as [m|]; [|done]. apply Hsame. }
  destruct (String.eqb tag "USER_LIST"); [|apply Hsame].
  destruct (as_users _) as [us|]; [|done]. cbn.
  destruct (handleUserListMessage_frame us r) as [m Hm].
  intros [= Heq]. rewrite Heq in Hm. simpl in Hm. by exists m.
Qed.

Lemma handle_upcall_frame (u : Upcall) (r r' : Room) (t : Trace) :
  handle_upcall u r = Some (r', t) → ∃ m, r' = with_users m r.
Proof.
  assert (Hsame : ∀ t0, Some (r, t0) = Some (r', t) → ∃ m, r' = with_users m r).
  { intros t0 [= <- _]. exists (users r). by rewrite with_users_same. }
  destruct u as [p|p|data p|e]; cbn.
  - apply Hsame.
  - unfold onDisconnect. destruct (JsMap.has p (users r)); [|apply Hsame].
    intros [= <- _]. by eexists.
  - apply handleRoomMessage_frame.
  - apply Hsame.
Qed.

Lemma run_upcalls_frame (es : Trace) (r r' : Room) (t : Trace) :
  run_upcalls es r = Some (r', t) → ∃ m, r' = with_users m r.
Proof.
  revert r t. induction es as [|e es IH]; intros r t; cbn.
  - intros [= <- _]. exists (users r). by rewrite with_users_same.
  - assert (Hskip : ('(r2, t2) ← run_upcalls es r; Some (r2, e :: t2)) = Some (r', t) →
                    ∃ m, r' = with_users m r).
    { destruct (run_upcalls es r) as [[r2 t2]|] eqn:Hrun; [|done].
      cbn. intros [= <- _]. by eapply IH. }
    destruct e; try apply Hskip.
    destruct (handle_upcall u r) as [[r1 t1]|] eqn:Hu; [|done]. cbn.
    destruct (run_upcalls es r1) as [[r2 t2]|] eqn:Hrun; [|done]. cbn.
    intros [= <- _].
    apply handle_upcall_frame in Hu as [m1 ->].
    apply IH in Hrun as [m2 ->]. by exists m2.
Qed.

Lemma via_connection_frame
    (f : WebRTCConnection → WebRTCConnection * Trace) (r r' : Room) (t : Trace) :
  via_connection f r = Some (r', t) →
  ∃ m, r' = with_users m (with_connection (fst (f (connection r))) r).
Proof.
  unfold via_connection. destruct (f (connection r)) as [c es]. cbn.
  apply run_upcalls_frame.
Qed.

Lemma join_resume_frame (peerId : string) (r : Room) :
  let r' := fst (join_resume peerId r) in
  roomId r' = roomId r ∧ options r' = options r
  ∧ username (userInfo r') = username (userInfo r)
  ∧ messageIdCounter r' = messageIdCounter r.
Proof.
  unfold join_resume.
  destruct (String.eqb peerId (id (userInfo r)));
    match goal with
    | |- context [if ?b then _ else _] => destruct b
    end; cbn; try done;
    unfold connect; cbn; by destruct (peer (connection r)).
Qed.

Lemma close_all_channels_frame (entries : JsMap DataConnection) (r : Room) :
  let r' := fst (close_all_channels entries r) in
  roomId r' = roomId r ∧ options r' = options r
  ∧ userInfo r' = userInfo r
  ∧ messageIdCounter r' = messageIdCounter r.
Proof.
  revert r. induction entries as [|[k conn] rest IH]; intros r; [done|].
  cbn [close_all_channels fst]. cbv zeta in IH.
  destruct (IH (fst (onDisconnect (conn_peer conn)
                       (with_connection
                          (fst (conn_close (P:=RoomMessage) k conn (connection r))) r))))
    as (-> & -> & -> & ->).
  unfold onDisconnect. by destruct (JsMap.has _ _).
Qed.

Lemma leave_frame (r : Room) :
  let r' := fst (leave r) in
  roomId r' = roomId r ∧ options r' = options r
  ∧ userInfo r' = userInfo r
  ∧ messageIdCounter r' = messageIdCounter r.
Proof.
  destruct (close_all_channels_frame (connections (connection r)) r) as (H1 & H2 & H3 & H4).
  unfold leave. cbn. by rewrite H1, H2, H3, H4.
Qed.

Lemma step_frame (ev : Event) (r r' : Room) (t : Trace) :
  step ev r = Some (r', t) →
  roomId r' = roomId r ∧ options r' = options r
  ∧ username (userInfo r') = username (userInfo r)
  ∧ messageIdCounter r'
    = (messageIdCounter r + if is_send_call ev then 1 else 0)%Z.
Proof.
  assert (Hvia : ∀ f, via_connection f r = Some (r', t) →
            roomId r' = roomId r ∧ options r' = options r
            ∧ username (userInfo r') = username (userInfo r)
            ∧ messageIdCounter r' = (messageIdCounter r + 0)%Z).
  { intros f [m ->]%via_connection_frame. cbn. by rewrite Z.add_0_r. }
  destruct ev; cbn [step is_send_call]; try apply Hvia.
  - destruct (via_connection (peer_on_open id0) r) as [[r1 t1]|] eqn:Hv; [|done].
    cbn. pose proof (join_resume_frame id0 r1) as Hj.
    destruct (join_resume id0 r1) as [r2 t2]. intros [= <- _].
    apply via_connection_frame in Hv as [m ->]. cbn in Hj.
    rewrite Z.add_0_r. exact Hj.
  - destruct dialled; [apply Hvia|]. intros [= <- _]. by rewrite Z.add_0_r.
  - unfold join_begin, initialize. intros [= <- _]. cbn. by rewrite Z.add_0_r.
  - intros Heq. pose proof (leave_frame r) as Hf.
    destruct (leave r) as [r1 t1]. injection Heq as <- _.
    cbn in Hf. destruct Hf as (-> & -> & -> & ->). by rewrite Z.add_0_r.
  - unfold Room_sendMessage. cbn. intros [= <- _]. done.
Qed.

Lemma run_frame (evs : list Event) (r r' : Room) (t : Trace) :
  run evs r = Some (r', t) →
  options r' = options r
  ∧ username (userInfo r') = username (userInfo r)
  ∧ messageIdCounter r'
    = (messageIdCounter r + Z.of_nat (length (List.filter is_send_call evs)))%Z.
Proof.
  revert r t. induction evs as [|ev evs IH]; intros r t; cbn.
  - intros [= <- _]. by rewrite Z.add_0_r.
  - destruct (step ev r) as [[r1 t1]|] eqn:Hstep; [|done]. cbn.
    destruct (run evs r1) as [[r2 t2]|] eqn:Hrun; [|done]. cbn.
    intros [= <- _].
    apply step_frame in Hstep as (_ & Ho & Hn & Hc).
    apply IH in Hrun as (Ho' & Hn' & Hc').
    rewrite Ho', Hn', Hc', Ho, Hn, Hc. split_and!; [done|done|].
    destruct (is_send_call ev); cbn [List.filter length]; lia.
Qed.

(** C4, as the code has it.  In a room built by the constructor and
    taken through any events ([join()] and [leave()] among them), the
    call of [sendMessage] that follows [n] earlier calls returns the
    message numbered [n + 1], with the display name given to the
    constructor, the content and the current time; it broadcasts that
    message in a CHAT frame and changes nothing but the counter.  So the
    numbers of a room go 1, 2, 3, ... and nothing takes them back. *)
Theorem sendMessage_numbers
    (o : RoomOptions) (evs : list Event) (r : Room) (t : Trace)
    (content : string) (now : Z) :
  run evs (Room_new o) = Some (r, t) →
  let n := Z.of_nat (length (List.filter is_send_call evs)) in
  let message := mkMessage (n + 1) (opt_username o) content now in
  ∃ r',
    Room_sendMessage content now r
    = (message, r', snd (broadcast (CHAT message) (connection r)))
    ∧ r' = with_messageIdCounter (n + 1) r.
Proof.
  intros Hrun. apply run_frame in Hrun as (_ & Hname & Hcount).
  cbn in Hname, Hcount. cbn zeta.
  unfold Room_sendMessage, getNextMessageId. cbn.
  rewrite Hname, Hcount. by eexists.
Qed.

(** C4, as stated, fails: [join()] does not take the numbers back to 1.
    A room joins, sends, leaves and joins again; the next message is
    number 2. *)
Lemma join_keeps_the_numbering :
  ∃ r t,
    run [CallJoin; PeerOpen "me"; CallSendMessage "a" 1700000000000;
         CallLeave; CallJoin; PeerOpen "me"] Examples.fresh_room
    = Some (r, t)
    ∧ mid (Room_sendMessage "b" 1700000000001 r).1.1 = 2%Z.
Proof. eexists _, _. split; reflexivity. Qed.

Lemma sendMessage_numbers_witness :
  ∃ r',
    Room_sendMessage "hi" 1700000000000 Examples.fresh_room
    = (mkMessage 1 "Me" "hi" 1700000000000, r',
       snd (broadcast (CHAT (mkMessage 1 "Me" "hi" 1700000000000))
              (connection Examples.fresh_room)))
    ∧ r' = with_messageIdCounter 1 Examples.fresh_room.
Proof.
  apply (sendMessage_numbers Examples.me_options [] Examples.fresh_room []).
  reflexivity.
Defined.

(** ** The local participant in the Map *)

Lemma handleUserListMessage_keeps (k : string) (us : list UserInfo) (r : Room) :
  JsMap.has k (users r) = true →
  JsMap.has k (users (fst (handleUserListMessage us r))) = true.
Proof.
  revert r. induction us as [|u us IH]; intros r Hk; cbn; [done|].
  destruct (JsMap.has (id u) (users r)) eqn:Hu; [by apply IH|].
  specialize (IH (with_users (JsMap.set (id u) (Sent u) (users r)) r)).
  destruct (handleUserListMessage us _) as [r'' t]. cbn in *. apply IH.
  apply has_true. rewrite get_set. case_decide; [by eexists|]. by apply has_true.
Qed.

Lemma handleRoomMessage_keeps
    (k : string) (data : JsVal) (fromPeerId : string) (r r' : Room) (t : Trace) :
  handleRoomMessage data fromPeerId r = Some (r', t) →
  ¬ (prop "type" data = JStr "LEAVE" ∧ prop "userId" data = JStr k) →
  JsMap.has k (users r) = true → JsMap.has k (users r') = true.
Proof.
  intros Hh Hnot Hk. revert Hh.
  assert (Hsame : ∀ t0, Some (r, t0) = Some (r', t) → JsMap.has k (users r') = true).
  { by intros t0 [= <- _]. }
  unfold handleRoomMessage.
  destruct (negb (truthy data) || negb (truthy (prop "type" data))); [apply Hsame|].
  destruct (prop "type" data) as [| | | |tag| |] eqn:Htag; try apply Hsame.
  destruct (String.eqb tag "JOIN").
  { destruct (as_UserInfo _) as [u|]; [|done]. intros [= <- _]. cbn.
    apply has_true. rewrite get_set. case_decide; [by eexists|]. by apply has_true. }
  destruct (String.eqb_spec tag "LEAVE") as [->|_].
  { destruct (prop "userId" data) as [| | | |u| |] eqn:Hu; try done. cbn.
    unfold handleLeaveMessage.
    destruct (JsMap.has u (users r)); [|apply Hsame]. intros [= <- _]. cbn.
    apply has_true. rewrite get_delete. case_decide as Heq.
    - subst u. by destruct Hnot.
    - by apply has_true. }
  destruct (String.eqb tag "CHAT").
  { destruct (as_Message _) as [m|]; [|done]. apply Hsame. }
  destruct (String.eqb tag "USER_LIST"); [|apply Hsame].
  destruct (as_users _) as [us|]; [|done]. cbn.
  pose proof (handleUserListMessage_keeps k us r Hk) as Hkeep.
  intros [= Heq]. by rewrite Heq in Hkeep.
Qed.

Lemma join_resume_self (peerId : string) (r : Room) :
  JsMap.has (id (userInfo r)) (users r) = true →
  let r' := fst (join_resume peerId r) in
  JsMap.has (id (userInfo r')) (users r') = true.
Proof.
  intros Hk. unfold join_resume.
  destruct (String.eqb peerId (id (userInfo r))) eqn:Heq;
    match goal with
    | |- context [if ?b then _ else _] => destruct b
    end; cbn; try done;
    try (unfold connect; cbn; destruct (peer (connection r)); cbn; try done);
    apply has_true; rewrite get_set; case_decide; by eauto.
Qed.

Lemma step_keeps_self (ev : Event) (r r' : Room) (t : Trace) :
  ev ≠ CallLeave →
  names_self ev r = false →
  step ev r = Some (r', t) →
  JsMap.has (id (userInfo r)) (users r) = true →
  JsMap.has (id (userInfo r')) (users r') = true.
Proof.
  intros Hleave Hself Hstep Hk.
  destruct ev.
  - (* the peer opens: join resumes *)
    cbn [step] in Hstep.
    destruct (via_connection (peer_on_open id0) r) as [[r1 t1]|] eqn:Hv; [|done].
    cbn in Hstep. pose proof (join_resume_self id0 r1) as Hj.
    destruct (join_resume id0 r1) as [r2 t2]. injection Hstep as <- _.
    apply Hj. unfold via_connection in Hv. cbn in Hv. by injection Hv as <- _.
  - cbn [step] in Hstep. unfold via_connection, peer_on_error in Hstep. cbn in Hstep.
    destruct (state (connection r)); cbn in Hstep; by injection Hstep as <- _.
  - cbn [step] in Hstep. unfold via_connection in Hstep. cbn in Hstep. by injection Hstep as <- _.
  - cbn [step] in Hstep. unfold via_connection in Hstep. cbn in Hstep.
    destruct dialled; cbn in Hstep; by injection Hstep as <- _.
  - cbn [step] in Hstep. unfold via_connection in Hstep.
    destruct dialled; cbn in Hstep; by injection Hstep as <- _.
  - rewrite step_ChannelData in Hstep.
    destruct (typeof_object data); [|by injection Hstep as <- _].
    destruct (handleRoomMessage data (conn_peer conn) r) as [[r1 t1]|] eqn:Hh; [|done].
    cbn in Hstep. injection Hstep as <- _.
    pose proof (handleRoomMessage_frame _ _ _ _ _ Hh) as [m Hm].
    assert (Hui : userInfo r1 = userInfo r) by by rewrite Hm.
    rewrite Hui. eapply handleRoomMessage_keeps; [exact Hh| |exact Hk].
    intros [Ht Hu]. cbn in Hself. rewrite Ht, Hu in Hself.
    rewrite String.eqb_refl in Hself. cbn in Hself.
    by rewrite String.eqb_refl in Hself.
  - rewrite step_ChannelClose in Hstep. injection Hstep as Hstep.
    unfold onDisconnect in Hstep. cbn in Hstep, Hself.
    destruct (JsMap.has (conn_peer conn) (users r)); injection Hstep as <- _; [|done].
    cbn. apply has_true. rewrite get_delete. case_decide as Heq.
    + rewrite Heq, String.eqb_refl in Hself. done.
    + by apply has_true.
  - cbn [step] in Hstep. unfold join_begin, initialize in Hstep. by injection Hstep as <- _.
  - done.
  - cbn [step] in Hstep. unfold Room_sendMessage in Hstep. cbn in Hstep. by injection Hstep as <- _.
Qed.

(** C3, as the code has it.  From the constructor up to [leave()], the
    Map has the local identity among its keys, as long as no LEAVE frame
    and no closing channel names that identity: every other frame (JOIN,
    USER_LIST, CHAT, a LEAVE for someone else, a bad one), every other
    channel and peer event, [join()] with the identity it brings, and
    [sendMessage] keep the entry. *)
Theorem self_stays_member (o : RoomOptions) (r : Room) :
  in_session o r → hasUser (id (userInfo r)) r = true.
Proof.
  unfold hasUser. induction 1 as [|ev r r' t _ IH Hleave Hself Hstep].
  - apply has_true. unfold Room_new. cbn [users userInfo id].
    rewrite get_set. case_decide; [by eexists|done].
  - by eapply step_keeps_self.
Qed.

(** C3, as stated, fails: a LEAVE frame with the local identity removes
    the local participant from its own Map. *)
Lemma leave_frame_removes_self :
  ∃ r t,
    run [CallJoin; PeerOpen "me"; ChannelOpen false Examples.bob;
         ChannelData Examples.bob (encode (LEAVE "me"))] Examples.fresh_room
    = Some (r, t)
    ∧ id (userInfo r) = "me"
    ∧ hasUser (id (userInfo r)) r = false.
Proof. eexists _, _. split_and!; reflexivity. Qed.

Lemma self_stays_member_witness :
  hasUser (id (userInfo Examples.host_with_bob)) Examples.host_with_bob = true.
Proof.
  apply (self_stays_member Examples.me_options Examples.host_with_bob).
  eapply (session_step _ (ChannelData Examples.bob (encode (JOIN Examples.bob_info))));
    [eapply (session_step _ (ChannelOpen false Examples.bob));
     [eapply (session_step _ (PeerOpen "me"));
      [eapply (session_step _ CallJoin); [apply session_new|..]|..]|..]|..];
    first [discriminate | reflexivity].
Defined.

(** ** The membership mapping under JOIN and USER_LIST *)

Lemma get_fmap_deref (r : Room) (m : JsMap UserRef) (k : string) :
  JsMap.get k (prod_map (λ k : string, k) (deref r) <$> m) = deref r <$> JsMap.get k m.
Proof.
  induction m as [|[k' x] m IH]; [done|].
  rewrite fmap_cons. cbn [prod_map fst snd JsMap.get].
  by destruct (String.eqb k k').
Qed.

Lemma membership_lookup (r : Room) (k : string) :
  membership r !! k = deref r <$> JsMap.get k (users r).
Proof. unfold membership. by rewrite get_to_gmap, get_fmap_deref. Qed.

Lemma membership_set (r : Room) (k : string) (x : UserRef) :
  membership (with_users (JsMap.set k x (users r)) r) = <[k:=deref r x]> (membership r).
Proof.
  apply map_eq. intros k'.
  rewrite membership_lookup, lookup_insert, membership_lookup.
  unfold with_users at 2. cbn [users]. rewrite get_set.
  case_decide; [by destruct x|].
  by destruct (JsMap.get k' (users r)) as [[|u]|].
Qed.

Lemma membership_None (r : Room) (k : string) :
  membership r !! k = None ↔ JsMap.has k (users r) = false.
Proof.
  rewrite membership_lookup, has_false. by destruct (JsMap.get k (users r)).
Qed.

Lemma handleUserListMessage_membership (us : list UserInfo) (r : Room) :
  membership (fst (handleUserListMessage us r))
  = membership r ∪ list_to_map (by_id us).
Proof.
  revert r. induction us as [|u us IH]; intros r.
  - cbn. by rewrite (right_id_L ∅ (∪)).
  - cbn [handleUserListMessage by_id fmap list_fmap list_to_map foldr].
    cbn [uncurry curry fst snd].
    destruct (JsMap.has (id u) (users r)) eqn:Hu.
    + rewrite IH. apply map_eq. intros k.
      apply has_true in Hu as [x Hx].
      rewrite !lookup_union, lookup_insert. case_decide as Hk; [|done].
      subst k. rewrite membership_lookup, Hx. cbn.
      by destruct (list_to_map (by_id us) !! id u).
    + specialize (IH (with_users (JsMap.set (id u) (Sent u) (users r)) r)).
      destruct (handleUserListMessage us _) as [r'' t]. cbn [fst] in *.
      rewrite IH, membership_set. cbn [deref].
      rewrite <- insert_union_l, <- insert_union_r; [done|].
      by apply membership_None.
Qed.

Lemma handleUserListMessage_callbacks (us : list UserInfo) (r : Room) :
  snd (handleUserListMessage us r)
  ≡ₚ (λ kv, OnJoin kv.1 (username kv.2))
       <$> map_to_list (membership (fst (handleUserListMessage us r)) ∖ membership r).
Proof.
  revert r. induction us as [|u us IH]; intros r.
  - cbn [handleUserListMessage fst snd].
    replace (membership r ∖ membership r) with (∅ : gmap string UserInfo).
    { by rewrite map_to_list_empty. }
    symmetry. apply map_eq. intros k. rewrite lookup_difference, lookup_empty.
    by destruct (membership r !! k).
  - cbn [handleUserListMessage].
    destruct (JsMap.has (id u) (users r)) eqn:Hu; [apply IH|].
    pose proof (handleUserListMessage_membership us
                  (with_users (JsMap.set (id u) (Sent u) (users r)) r)) as Hm.
    specialize (IH (with_users (JsMap.set (id u) (Sent u) (users r)) r)).
    destruct (handleUserListMessage us _) as [r'' t]. cbn [fst snd] in *.
    rewrite membership_set in IH, Hm. cbn [deref] in IH, Hm.
    apply membership_None in Hu.
    replace (membership r'' ∖ membership r)
      with (<[id u:=u]> (membership r'' ∖ <[id u:=u]> (membership r))).
    { rewrite map_to_list_insert.
      - rewrite fmap_cons. cbn [fst snd]. by rewrite IH.
      - rewrite lookup_difference, lookup_insert_eq. done. }
    apply map_eq. intros k.
    rewrite lookup_insert, !lookup_difference. case_decide as Hk.
    + subst k. rewrite Hu, Hm, lookup_union, lookup_insert_eq.
      by destruct (list_to_map (by_id us) !! id u).
    + by rewrite lookup_insert_ne.
Qed.

Lemma handleUserListMessage_known (us : list UserInfo) (r : Room) :
  (∀ u, u ∈ us → JsMap.has (id u) (users r) = true) →
  handleUserListMessage us r = (r, []).
Proof.
  induction us as [|u us IH]; intros Hknown; [done|].
  cbn [handleUserListMessage]. rewrite Hknown by apply list_elem_of_here.
  apply IH. intros u' Hu'. by apply Hknown, list_elem_of_further.
Qed.

Lemma handleUserListMessage_has (us : list UserInfo) (r : Room) (u : UserInfo) :
  u ∈ us → JsMap.has (id u) (users (fst (handleUserListMessage us r))) = true.
Proof.
  intros Hu.
  destruct (JsMap.has (id u) (users (handleUserListMessage us r).1)) eqn:Hhas; [done|].
  apply membership_None in Hhas.
  rewrite handleUserListMessage_membership in Hhas.
  apply lookup_union_None in Hhas as [_ Hnone].
  apply not_elem_of_list_to_map in Hnone. destruct Hnone.
  unfold by_id. rewrite <- list_fmap_compose. apply list_elem_of_fmap. by exists u.
Qed.

Lemma handleUserListMessage_userInfo (us : list UserInfo) (r : Room) :
  userInfo (fst (handleUserListMessage us r)) = userInfo r.
Proof. destruct (handleUserListMessage_frame us r) as [m ->]. done. Qed.

Lemma deliver_membership (f : RoomMessage) (fromPeerId : string) (r : Room) :
  is_announcement f = true →
  membership (fst (deliver f fromPeerId r))
  = match f with
    | JOIN u => <[id u:=u]> (membership r)
    | _ => membership r ∪ list_to_map (by_id (announced f))
    end.
Proof.
  destruct f as [u| | |us]; try done; intros _.
  - cbn [deliver handleJoinMessage fst]. by rewrite membership_set.
  - apply handleUserListMessage_membership.
Qed.

Lemma insert_as_union (m : gmap string UserInfo) (u : UserInfo) :
  (∀ v, m !! id u = Some v → v = u) →
  <[id u:=u]> m = m ∪ list_to_map (by_id [u]).
Proof.
  intros Hagree. apply map_eq. intros k. cbn.
  rewrite lookup_union, !lookup_insert, lookup_empty. case_decide as Hk.
  - subst k. destruct (m !! id u) as [v|] eqn:Hv; [|done].
    by rewrite (Hagree v eq_refl).
  - by destruct (m !! k).
Qed.

Lemma announcements_cons (fromPeerId : string) (f : RoomMessage)
    (fs : list (string * RoomMessage)) :
  announcements ((fromPeerId, f) :: fs) = announced f ++ announcements fs.
Proof. done. Qed.

Lemma elem_of_announcements (u : UserInfo) (fs : list (string * RoomMessage)) :
  u ∈ announcements fs ↔ ∃ pf, pf ∈ fs ∧ u ∈ announced pf.2.
Proof.
  induction fs as [|[p f] fs IH].
  - split; [by intros ?%elem_of_nil | by intros (? & ?%elem_of_nil & _)].
  - rewrite announcements_cons, elem_of_app, IH. split.
    + intros [Hu|(pf & Hpf & Hu)].
      * exists (p, f). split; [apply list_elem_of_here|done].
      * exists pf. split; [by apply list_elem_of_further|done].
    + intros (pf & [->|Hpf]%elem_of_cons & Hu); eauto.
Qed.

Lemma deliver_all_dom (fs : list (string * RoomMessage)) (r : Room) :
  Forall (λ pf, is_announcement pf.2 = true) fs →
  dom (membership (fst (deliver_all fs r)))
  = dom (membership r) ∪ list_to_set (id <$> announcements fs).
Proof.
  intros Hfs. revert r. induction Hfs as [|[p f] fs Hf _ IH]; intros r.
  - cbn. by rewrite (right_id_L ∅ (∪)).
  - cbn [deliver_all]. pose proof (deliver_membership f p r Hf) as Hm.
    destruct (deliver f p r) as [r1 t1]. specialize (IH r1).
    destruct (deliver_all fs r1) as [r2 t2]. cbn [fst snd] in *.
    rewrite IH, Hm, announcements_cons, fmap_app, list_to_set_app_L.
    destruct f as [u| | |us]; try done; cbn [announced].
    + rewrite dom_insert_L. cbn. set_solver.
    + rewrite dom_union_L, dom_list_to_map_L. unfold by_id.
      rewrite <- list_fmap_compose. set_solver.
Qed.

Lemma agree_app_l (m : gmap string UserInfo) (us vs : list UserInfo) :
  agree m (us ++ vs) → agree m us.
Proof.
  intros H u Hu. destruct (H u) as [H1 H2]; [apply elem_of_app; by left|].
  split; [done|]. intros u' Hu'. apply H2, elem_of_app. by left.
Qed.

Lemma agree_app_r (m : gmap string UserInfo) (us vs : list UserInfo) :
  agree m (us ++ vs) → agree (m ∪ list_to_map (by_id us)) vs.
Proof.
  intros H u Hu. destruct (H u) as [H1 H2]; [apply elem_of_app; by right|].
  split.
  - intros v [Hv|[_ Hv]]%lookup_union_Some_raw; [by apply H1|].
    apply elem_of_list_to_map_2 in Hv. unfold by_id in Hv.
    apply list_elem_of_fmap in Hv as (v' & [= Hid ->] & Hv').
    apply H2; [apply elem_of_app; by left|done].
  - intros u' Hu'. apply H2, elem_of_app. by right.
Qed.

Lemma deliver_all_union (fs : list (string * RoomMessage)) (r : Room) :
  Forall (λ pf, is_announcement pf.2 = true) fs →
  agree (membership r) (announcements fs) →
  membership (fst (deliver_all fs r))
  = membership r ∪ list_to_map (by_id (announcements fs)).
Proof.
  intros Hfs. revert r. induction Hfs as [|[p f] fs Hf _ IH]; intros r Hagree.
  - cbn. by rewrite (right_id_L ∅ (∪)).
  - cbn [deliver_all]. pose proof (deliver_membership f p r Hf) as Hm.
    destruct (deliver f p r) as [r1 t1]. specialize (IH r1).
    destruct (deliver_all fs r1) as [r2 t2]. cbn [fst snd] in *.
    rewrite announcements_cons in Hagree.
    assert (Hm' : membership r1 = membership r ∪ list_to_map (by_id (announced f))).
    { destruct f as [u| | |us]; try done. rewrite Hm. apply insert_as_union.
      apply (agree_app_l _ _ _ Hagree u), list_elem_of_here. }
    rewrite IH, Hm'.
    + rewrite announcements_cons. unfold by_id at 3.
      rewrite fmap_app, list_to_map_app. by rewrite (assoc_L (∪)).
    + rewrite Hm'. by apply agree_app_r.
Qed.

Lemma union_graph (m : gmap string UserInfo) (us : list UserInfo) (k : string) (v : UserInfo) :
  agree m us →
  (m ∪ list_to_map (by_id us)) !! k = Some v ↔
  m !! k = Some v ∨ (v ∈ us ∧ id v = k).
Proof.
  intros Hagree. rewrite lookup_union_Some_raw. split.
  - intros [Hm|[_ Hl]]; [by left|right].
    apply elem_of_list_to_map_2 in Hl. unfold by_id in Hl.
    by apply list_elem_of_fmap in Hl as (v' & [= -> ->] & Hv').
  - intros [Hm|[Hv <-]]; [by left|].
    destruct (Hagree v Hv) as [H1 H2].
    destruct (m !! id v) as [v'|] eqn:Hm.
    { left. by rewrite (H1 v' eq_refl). }
    right. split; [done|].
    destruct (list_to_map (by_id us) !! id v) as [v'|] eqn:Hl.
    + apply elem_of_list_to_map_2 in Hl. unfold by_id in Hl.
      apply list_elem_of_fmap in Hl as (v'' & [= Hid ->] & Hv'').
      f_equal. apply H2; [done|congruence].
    + apply not_elem_of_list_to_map in Hl. destruct Hl.
      unfold by_id. rewrite <- list_fmap_compose. apply list_elem_of_fmap.
      by exists v.
Qed.

Lemma agree_ext (m : gmap string UserInfo) (us vs : list UserInfo) :
  (∀ u, u ∈ us ↔ u ∈ vs) → agree m us → agree m vs.
Proof.
  intros Hext H u Hu. destruct (H u) as [H1 H2]; [by apply Hext|].
  split; [done|]. intros u' Hu'. by apply H2, Hext.
Qed.

Lemma announcements_perm (fs fs' : list (string * RoomMessage)) (u : UserInfo) :
  fs ≡ₚ fs' → u ∈ announcements fs ↔ u ∈ announcements fs'.
Proof.
  intros Hperm. rewrite !elem_of_announcements.
  split; intros (pf & Hpf & Hu); exists pf; (split; [|done]).
  - by rewrite <- Hperm.
  - by rewrite Hperm.
Qed.

(** C1, as the code has it.  One USER_LIST: the mapping becomes the
    union of what it was with the list, the old entries winning and,
    within the list, the first of two entries with one identity; no
    entry is changed or removed; every listed identity is a member
    afterwards; the join callback runs once for each entry that was
    added and for nothing else; the same list again changes nothing and
    calls nothing.  Any JOIN and USER_LIST frames, in any order: the
    member identities are those known before and those announced.  When
    the announcements give one display name per identity, and the known
    one where there is one, the mapping is exactly the union of what was
    known with every (identity, member) pair announced, and every order
    of delivery ends in the same mapping.  (Without that agreement the
    order shows: JOIN overwrites, USER_LIST keeps the first name.) *)
Theorem user_list_is_union
    (r : Room) (us : list UserInfo) (fs fs' : list (string * RoomMessage)) :
  Forall (λ pf, is_announcement pf.2 = true) fs →
  fs ≡ₚ fs' →
  let r1 := fst (handleUserListMessage us r) in
  let after := membership (fst (deliver_all fs r)) in
  let after' := membership (fst (deliver_all fs' r)) in
  membership r1 = membership r ∪ list_to_map (by_id us)
  ∧ (∀ k v, membership r !! k = Some v → membership r1 !! k = Some v)
  ∧ (∀ u, u ∈ us → is_Some (membership r1 !! id u))
  ∧ snd (handleUserListMessage us r)
    ≡ₚ (λ kv, OnJoin kv.1 (username kv.2))
         <$> map_to_list (membership r1 ∖ membership r)
  ∧ handleUserListMessage us r1 = (r1, [])
  ∧ dom after = dom (membership r) ∪ list_to_set (id <$> announcements fs)
  ∧ dom after' = dom after
  ∧ (agree (membership r) (announcements fs) →
       (∀ k v, after !! k = Some v ↔
               membership r !! k = Some v ∨ (v ∈ announcements fs ∧ id v = k))
       ∧ after' = after).
Proof.
  intros Hfs Hperm. cbv zeta.
  assert (Hfs' : Forall (λ pf, is_announcement pf.2 = true) fs')
    by by rewrite <- Hperm.
  split_and!.
  - apply handleUserListMessage_membership.
  - intros k v Hk. rewrite handleUserListMessage_membership.
    by apply lookup_union_Some_l.
  - intros u Hu. rewrite membership_lookup.
    pose proof (handleUserListMessage_has us r u Hu) as [x Hx]%has_true.
    rewrite Hx. by eexists.
  - apply handleUserListMessage_callbacks.
  - apply handleUserListMessage_known. intros u Hu.
    by apply handleUserListMessage_has.
  - by apply deliver_all_dom.
  - rewrite !deliver_all_dom by done. f_equal.
    apply set_eq. intros k. rewrite !elem_of_list_to_set, !list_elem_of_fmap.
    split; intros (u & -> & Hu); exists u; (split; [done|]);
      by eapply announcements_perm.
  - intros Hagree.
    assert (Hagree' : agree (membership r) (announcements fs')).
    { eapply agree_ext; [|exact Hagree]. intros u. by apply announcements_perm. }
    rewrite !deliver_all_union by done. split.
    + intros k v. by apply union_graph.
    + apply map_eq. intros k. apply option_eq. intros v.
      rewrite !union_graph by done.
      by setoid_rewrite (λ u, announcements_perm fs fs' u Hperm).
Qed.

(** C1, as stated, fails: two USER_LIST frames that give one identity
    two display names end in different mappings in the two orders. *)
Lemma user_lists_do_not_commute :
  ∃ fs fs',
    Forall (λ pf, is_announcement pf.2 = true) fs
    ∧ fs ≡ₚ fs'
    ∧ membership (fst (deliver_all fs Examples.fresh_room))
      ≠ membership (fst (deliver_all fs' Examples.fresh_room)).
Proof.
  exists [Examples.zoe_as_zoe; Examples.zoe_as_zed],
         [Examples.zoe_as_zed; Examples.zoe_as_zoe].
  split_and!.
  - by repeat constructor.
  - apply Permutation_swap.
  - intros Heq. apply (f_equal (λ m, m !! "zoe")) in Heq.
    rewrite !membership_lookup in Heq. cbn in Heq. discriminate Heq.
Qed.

Lemma user_list_is_union_witness :
  membership (fst (deliver_all [Examples.bob_lists; Examples.bob_joins]
                     Examples.fresh_room))
  = membership (fst (deliver_all [Examples.bob_joins; Examples.bob_lists]
                       Examples.fresh_room)).
Proof.
  destruct (user_list_is_union Examples.fresh_room []
              [Examples.bob_joins; Examples.bob_lists]
              [Examples.bob_lists; Examples.bob_joins])
    as (_ & _ & _ & _ & _ & _ & _ & H).
  - by repeat constructor.
  - apply Permutation_swap.
  - apply H. intros u Hu. cbn in Hu.
    repeat (apply elem_of_cons in Hu as [->|Hu]);
      try (by apply elem_of_nil in Hu);
      (split;
       [ intros v; rewrite membership_lookup; cbn; intros [= <-]; done
       | intros u' Hu'; cbn in Hu';
         repeat (apply elem_of_cons in Hu' as [->|Hu']);
         try (by apply elem_of_nil in Hu'); cbn; intros; done ]).
Defined.

(** ** The retry of the identity *)

Lemma on_error_taken (err : JsError) (st : Chat.State) :
  Chat.identity_taken err = true →
  Chat.on_error err st
  = if (Chat.retryCount st <? Chat.MAX_RETRIES)%nat
    then
      let n := pretty (Chat.retryCount st + 1)%nat +:+ "/" +:+ pretty Chat.MAX_RETRIES in
      (Chat.mkState (Chat.retryCount st + 1) (Chat.isConnected st) (Chat.isConnecting st)
         (Chat.connectionError st) ("ID冲突，尝试重新连接 (" +:+ n +:+ ")..."),
       [Chat.ConsoleError "Peer错误:";
        Chat.ConsoleLog ("ID被占用，尝试重新连接 (" +:+ n +:+ ")...");
        Chat.SetTimeout Chat.InitializePeer 1000])
    else
      (Chat.mkState (Chat.retryCount st) (Chat.isConnected st) false
         (Some Chat.exhausted_text) "无法创建唯一连接",
       [Chat.ConsoleError "Peer错误:"]).
Proof.
  unfold Chat.identity_taken, Chat.on_error. intros H.
  repeat (apply andb_prop in H as [H ?]).
  repeat match goal with
         | H : negb _ = true |- _ => apply negb_true_iff in H; rewrite H; clear H
         end.
  by match goal with H : Chat.id_taken_test _ = true |- _ => rewrite H end.
Qed.

Lemma on_error_other (err : JsError) (st : Chat.State) :
  Chat.identity_taken err = false →
  Chat.retryCount (fst (Chat.on_error err st)) = Chat.retryCount st
  ∧ List.filter Chat.is_retry (snd (Chat.on_error err st)) = [].
Proof.
  unfold Chat.identity_taken, Chat.on_error. intros H.
  destruct (String.eqb (err_type err) "peer-unavailable"); [done|].
  destruct (String.eqb (err_type err) "disconnected"); [done|].
  destruct (String.eqb (err_type err) "network"); [done|].
  cbn in H. by rewrite H.
Qed.

(** The count of retries, through anything the effect goes through. *)
Lemma chat_run_counts (seen : option string) (evs : list Chat.Event) (st : Chat.State) :
  (Chat.retryCount st ≤ Chat.MAX_RETRIES)%nat →
  let failures := length (List.filter Chat.is_identity_failure evs) in
  Chat.retryCount (fst (Chat.run seen evs st))
  = Nat.min (Chat.retryCount st + failures) Chat.MAX_RETRIES
  ∧ (length (List.filter Chat.is_retry (snd (Chat.run seen evs st))) + Chat.retryCount st
     = Nat.min (Chat.retryCount st + failures) Chat.MAX_RETRIES)%nat.
Proof.
  revert st. induction evs as [|ev evs IH]; intros st Hle; cbn zeta.
  - cbn. lia.
  - cbn [Chat.run List.filter].
    destruct (Chat.step seen ev st) as [st1 o1] eqn:Hstep.
    assert (Hone :
      if Chat.is_identity_failure ev
      then if (Chat.retryCount st <? Chat.MAX_RETRIES)%nat
           then Chat.retryCount st1 = S (Chat.retryCount st)
                ∧ length (List.filter Chat.is_retry o1) = 1%nat
           else Chat.retryCount st1 = Chat.retryCount st
                ∧ length (List.filter Chat.is_retry o1) = 0%nat
      else Chat.retryCount st1 = Chat.retryCount st
           ∧ length (List.filter Chat.is_retry o1) = 0%nat).
    { destruct ev as [a p|err| |]; cbn [Chat.step Chat.is_identity_failure] in *.
      - unfold Chat.initializePeer in Hstep. by destruct a; injection Hstep as <- <-.
      - destruct (Chat.identity_taken err) eqn:Ht.
        + rewrite on_error_taken in Hstep by done.
          destruct (Chat.retryCount st <? Chat.MAX_RETRIES)%nat;
            injection Hstep as <- <-; cbn; split; lia.
        + destruct (on_error_other err st Ht) as [H1 H2].
          rewrite Hstep in H1, H2. cbn in H1, H2. by rewrite H1, H2.
      - by injection Hstep as <- <-.
      - by injection Hstep as <- <-. }
    assert (Hle1 : (Chat.retryCount st1 ≤ Chat.MAX_RETRIES)%nat).
    { destruct (Chat.is_identity_failure ev);
        [destruct (Nat.ltb_spec (Chat.retryCount st) Chat.MAX_RETRIES)|];
        destruct Hone; lia. }
    specialize (IH st1 Hle1). cbn zeta in IH.
    destruct (Chat.run seen evs st1) as [st2 o2]. cbn [fst snd] in *.
    rewrite List.filter_app, length_app.
    destruct (Chat.is_identity_failure ev); cbn [length];
      [destruct (Nat.ltb_spec (Chat.retryCount st) Chat.MAX_RETRIES)|];
      destruct Hone; lia.
Qed.

(** C5.  The page is mounted and the identity is taken four times in a
    row; each time PeerJS emits the error, destroys the peer and so
    emits disconnected and close.  Three retries are scheduled and then
    none.  At the fourth failure the error listener sets the
    identity-exhausted error, and the close listener that runs next
    replaces it: its guard reads the [connectionError] of its closure,
    which is [null] whatever the page shows by then.  The page ends on
    the connection-closed text, not on the identity-exhausted one. *)
Theorem exhausted_error_is_replaced :
  let st := fst (Chat.run None Examples.three_collisions Chat.initial) in
  let shown := fst (Chat.on_error Examples.id_taken st) in
  let final := fst (Chat.run None Examples.collision st) in
  Chat.retryCount st = Chat.MAX_RETRIES
  ∧ length (List.filter Chat.is_retry
              (snd (Chat.run None Examples.three_collisions Chat.initial)))
    = Chat.MAX_RETRIES
  ∧ List.filter Chat.is_retry (snd (Chat.run None Examples.collision st)) = []
  ∧ Chat.connectionError shown = Some Chat.exhausted_text
  ∧ Chat.connectionError final = Some Chat.closed_text
  ∧ Chat.connectionError final ≠ Some Chat.exhausted_text
  ∧ (∀ st0, Chat.connectionError (fst (Chat.on_close None st0)) = Some Chat.closed_text).
Proof. cbv zeta. split_and!; try reflexivity. discriminate. Qed.

(** * More of the code *)

(** ** The connection *)
Section ConnectionMore.
Context {P : Type}.
Implicit Types (c : WebRTCConnection) (m : P).

Lemma conn_step_state (op : ConnOp P) c :
  state (fst (conn_step op c)) = state c
  ∨ state (fst (conn_step op c)) = CONNECTED
  ∨ state (fst (conn_step op c)) = CONNECTING
  ∨ state (fst (conn_step op c)) = DISCONNECTED.
Proof.
  destruct op; cbn; auto.
  - unfold connect. destruct (peer c); cbn; auto.
  - destruct dialled; cbn; auto.
  - unfold disconnectFrom. destruct (JsMap.get peerId (connections c)); cbn; auto.
Qed.

(** X1. A connection never reports FAILED: whatever is called and
    whatever PeerJS fires, in any order, the state of a connection made
    by the constructor is DISCONNECTED, CONNECTING or CONNECTED. *)
Theorem state_never_failed (userId : string) (ops : list (ConnOp P)) :
  getState (conn_run ops (WebRTCConnection_new userId)) = DISCONNECTED
  ∨ getState (conn_run ops (WebRTCConnection_new userId)) = CONNECTING
  ∨ getState (conn_run ops (WebRTCConnection_new userId)) = CONNECTED.
Proof.
  assert (H : ∀ c, state c = DISCONNECTED ∨ state c = CONNECTING ∨ state c = CONNECTED →
                   state (conn_run ops c) = DISCONNECTED
                   ∨ state (conn_run ops c) = CONNECTING
                   ∨ state (conn_run ops c) = CONNECTED).
  { induction ops as [|op ops IH]; intros c Hc; [done|].
    cbn. apply IH.
    destruct (conn_step_state op c) as [-> | [-> | [-> | ->]]]; auto. }
  apply H. by left.
Qed.

Lemma conn_step_peer_None (op : ConnOp P) c :
  is_initialize op = false → peer c = None → peer (fst (conn_step op c)) = None.
Proof.
  intros Hop Hc. destruct op; try discriminate Hop; cbn; try done.
  - unfold connect. by rewrite Hc.
  - by destruct dialled.
  - unfold disconnectFrom. by destruct (JsMap.get peerId (connections c)).
Qed.

Lemma conn_step_no_dial (op : ConnOp P) c :
  is_initialize op = false → peer c = None →
  List.filter is_dial (snd (conn_step op c)) = [].
Proof.
  intros Hop Hc. destruct op; try discriminate Hop; cbn; try done.
  - by destruct (state c).
  - unfold connect. by rewrite Hc.
  - by destruct dialled.
  - by destruct dialled.
  - by destruct (typeof_object data).
  - unfold sendMessage. destruct (JsMap.get peerId (connections c)) as [conn|]; [|done].
    by destruct (send_throws conn).
  - unfold broadcast. cbn. induction (connections c) as [|[p conn] l IH]; [done|].
    cbn. rewrite List.filter_app, IH. by destruct (send_throws conn).
  - unfold disconnectFrom. by destruct (JsMap.get peerId (connections c)).
  - unfold disconnect, disconnect_end. cbn [fst snd].
    destruct (close_all_frame (P:=P) (connections c) c) as (-> & _).
    rewrite Hc, app_nil_r. generalize c at 2.
    induction (connections c) as [|[k conn] rest IH]; intros c0; [done|].
    cbn [close_all snd conn_close conn_on_close List.filter is_dial]. apply IH.
Qed.

(** X2. Without [initialize()] nothing is ever dialled: after any calls
    and events that do not include [initialize()], the connection made
    by the constructor has no peer, no [peer.connect] was called, and
    [connect] rejects with 'Peer not initialized' and changes nothing. *)
Theorem no_dial_without_initialize
    (userId remotePeerId : string) (ops : list (ConnOp P)) :
  forallb (λ op, negb (is_initialize op)) ops = true →
  let c := conn_run ops (WebRTCConnection_new userId) in
  peer c = None
  ∧ List.filter is_dial (conn_trace ops (WebRTCConnection_new userId)) = []
  ∧ connect (P:=P) remotePeerId c
    = (c, [Reject (mkJsError "" "Peer not initialized")]).
Proof.
  intros Hops. cbv zeta.
  assert (H : ∀ c, peer c = None →
            peer (conn_run ops c) = None
            ∧ List.filter is_dial (conn_trace ops c) = []).
  { induction ops as [|op ops IH]; intros c Hc; [done|].
    cbn in Hops. apply andb_prop in Hops as [Hop Hrest].
    apply negb_true_iff in Hop. cbn.
    destruct (IH Hrest (fst (conn_step op c))) as [H1 H2].
    { by apply conn_step_peer_None. }
    split; [done|]. rewrite List.filter_app, H2, app_nil_r.
    by apply conn_step_no_dial. }
  destruct (H (WebRTCConnection_new userId) eq_refl) as [Hpeer Hdial].
  split_and!; [done|done|]. unfold connect. by rewrite Hpeer.
Qed.

(** X3. After [disconnect()] the connection is inert: [broadcast] does
    nothing, [sendMessage] fails for every identity without attempting
    anything, no peer is listed, and [connect] rejects and leaves the
    state DISCONNECTED. *)
Theorem after_disconnect_inert c m (p : string) :
  let c' := fst (disconnect (P:=P) c) in
  snd (broadcast m c') = []
  ∧ fst (sendMessage p m c') = false
  ∧ omap attempt (snd (sendMessage p m c')) = []
  ∧ getConnectedPeers c' = []
  ∧ connect (P:=P) p c' = (c', [Reject (mkJsError "" "Peer not initialized")])
  ∧ getState c' = DISCONNECTED.
Proof. cbv zeta. split_and!; reflexivity. Qed.

Lemma attempts_broadcast_to m c (e : Effect P) (q : string) (m' : P) (ok : bool) :
  e ∈ snd (broadcast m c) → attempt e = Some (q, m', ok) →
  ∃ conn, (q, conn) ∈ connections c ∧ m' = m ∧ ok = negb (send_throws conn).
Proof.
  intros (entry & Hentry & He)%elem_of_broadcast Hatt.
  destruct entry as [p conn]. cbn in He. exists conn.
  destruct (send_throws conn).
  - apply elem_of_cons in He as [->|He].
    + cbn in Hatt. by injection Hatt as <- <- <-.
    + apply list_elem_of_singleton in He as ->. discriminate Hatt.
  - apply list_elem_of_singleton in He as ->. cbn in Hatt.
    by injection Hatt as <- <- <-.
Qed.

Lemma elem_of_delete_inv {V} (k q : string) (v : V) (l : list (string * V)) :
  (q, v) ∈ JsMap.delete k l → q ≠ k ∧ (q, v) ∈ l.
Proof.
  induction l as [|[k1 v1] l IH]; cbn; [by intros ?%elem_of_nil|].
  destruct (String.eqb_spec k k1) as [->|Hne].
  - intros [Hq Hin]%IH. split; [done|]. by apply list_elem_of_further.
  - intros [[= -> ->]|Hin]%elem_of_cons.
    + split; [done|]. apply list_elem_of_here.
    + destruct (IH Hin) as [Hq Hin']. split; [done|]. by apply list_elem_of_further.
Qed.

Lemma delete_twice {V} (k : string) (l : list (string * V)) :
  JsMap.delete k (JsMap.delete k l) = JsMap.delete k l.
Proof.
  induction l as [|[k1 v1] l IH]; cbn; [done|].
  destruct (String.eqb_spec k k1) as [->|Hne]; [done|].
  cbn. destruct (String.eqb_spec k k1); [done|]. by rewrite IH.
Qed.

(** X4. [disconnectFrom(p)] on a connected identity closes that one
    channel and no other.  Closing runs the channel's close listener, so
    the subscriber's [onDisconnect] is called, once, with the identity of
    the channel, before [disconnectFrom] returns.  The state and the
    peer are as they were; the Map loses [p] (and the identity of the
    closed channel, which is [p] for a channel stored by its open
    listener) and keeps every other channel; afterwards [sendMessage] to
    [p] fails and [broadcast] attempts nothing on [p]. *)
Theorem disconnectFrom_closes_one c m (p : string) (conn : DataConnection) :
  JsMap.get p (connections c) = Some conn →
  let c' := fst (disconnectFrom (P:=P) p c) in
  snd (disconnectFrom (P:=P) p c)
  = [ConnClose p; Emit (UpDisconnect (conn_peer conn))]
  ∧ getState c' = getState c
  ∧ peer c' = peer c
  ∧ JsMap.get p (connections c') = None
  ∧ (∀ q, q ≠ p → q ≠ conn_peer conn →
          JsMap.get q (connections c') = JsMap.get q (connections c))
  ∧ (conn_peer conn = p → connections c' = JsMap.delete p (connections c))
  ∧ fst (sendMessage p m c') = false
  ∧ (∀ e q m' ok, e ∈ snd (broadcast m c') → attempt e = Some (q, m', ok) → q ≠ p).
Proof.
  intros Hget. cbv zeta. unfold disconnectFrom. rewrite Hget.
  cbn [fst snd conn_close conn_on_close with_connections connections state peer].
  assert (Hgone : JsMap.get p (JsMap.delete p
                    (JsMap.delete (conn_peer conn) (connections c))) = None).
  { rewrite get_delete. by case_decide. }
  split_and!; try done.
  - intros q Hq Hq'. rewrite !get_delete. by repeat case_decide.
  - intros ->. apply delete_twice.
  - unfold sendMessage, with_connections. cbn [connections fst]. by rewrite Hgone.
  - intros e q m' ok He Hatt.
    destruct (attempts_broadcast_to _ _ _ _ _ _ He Hatt) as (conn' & Hin & _).
    unfold with_connections in Hin. cbn [connections fst] in Hin.
    by apply elem_of_delete_inv in Hin as [Hq _].
Qed.

(** X5. Channels are kept by identity only.  When a second channel of an
    identity opens, it takes the place of the first (no channel is
    closed, the list of peers does not grow); and when the first then
    closes, its close listener removes the entry of the second, so that
    nothing can be sent to the identity although its channel is open. *)
Theorem stale_close_drops_live_channel
    c m (first second : DataConnection) (d1 d2 : bool) :
  conn_peer first = conn_peer second →
  let p := conn_peer second in
  let opened := conn_run (P:=P) [OpChannelOpen d1 first; OpChannelOpen d2 second] c in
  let closed := fst (conn_step (P:=P) (OpChannelClose first) opened) in
  JsMap.get p (connections opened) = Some second
  ∧ getConnectedPeers opened
    = getConnectedPeers (fst (conn_step (P:=P) (OpChannelOpen d1 first) c))
  ∧ List.filter is_close
      (conn_trace (P:=P) [OpChannelOpen d1 first; OpChannelOpen d2 second] c) = []
  ∧ JsMap.get p (connections closed) = None
  ∧ fst (sendMessage p m closed) = false.
Proof.
  intros Heq. cbv zeta.
  cbn [conn_run conn_trace conn_step conn_on_open conn_on_close fst snd].
  unfold with_connections. cbn [connections]. rewrite Heq.
  assert (Hgone : JsMap.get (conn_peer second)
            (JsMap.delete (conn_peer second)
               (JsMap.set (conn_peer second) second
                  (JsMap.set (conn_peer second) first (connections c)))) = None).
  { rewrite get_delete. by case_decide. }
  split_and!.
  - rewrite get_set. by case_decide.
  - unfold getConnectedPeers, with_connections. cbn [connections]. rewrite keys_set.
    assert (Hhas : JsMap.has (conn_peer second)
              (JsMap.set (conn_peer second) first (connections c)) = true).
    { apply has_true. rewrite get_set. case_decide; [by eexists|done]. }
    by rewrite Hhas.
  - by destruct d1, d2.
  - exact Hgone.
  - unfold sendMessage. cbn [connections]. by rewrite Hgone.
Qed.
End ConnectionMore.

Section SubscriptionFacts.
Context {H : Type}.
Import Subscription.

Lemma spread_assoc (a b c : option (option H)) :
  spread (spread a b) c = spread a (spread b c).
Proof. by destruct c. Qed.

(** X6. [on(events)] replaces, name by name: a name that [events] has
    takes its value (also [undefined], which leaves no function to
    call), a name that it lacks keeps the handler registered before.
    Two registrations in a row are one registration of the second
    spread over the first, registering nothing changes nothing, and
    registering the same handlers twice is registering them once. *)
Theorem on_last_registration_wins
    (e1 e2 cur : ConnectionEventHandlers H) (h : H) :
  (onConnect e2 = Some (Some h) → called (onConnect (on e2 (on e1 cur))) = Some h)
  ∧ (onConnect e2 = Some None → called (onConnect (on e2 (on e1 cur))) = None)
  ∧ (onConnect e2 = None →
       onConnect (on e2 (on e1 cur)) = onConnect (on e1 cur))
  ∧ on e2 (on e1 cur) = on (on e2 e1) cur
  ∧ on no_events cur = cur
  ∧ on e1 (on e1 cur) = on e1 cur.
Proof.
  split_and!.
  - intros He. cbn. by rewrite He.
  - intros He. cbn. by rewrite He.
  - intros He. cbn. by rewrite He.
  - unfold on. cbn. by rewrite !spread_assoc.
  - by destruct cur.
  - unfold on. cbn.
    by destruct (onConnect e1), (onDisconnect e1), (onMessage e1), (onError e1).
Qed.
End SubscriptionFacts.

(** ** The room: more on frames and channel events *)

Lemma snd_sendMessage_present {P} (p : string) (m : P) (c : WebRTCConnection)
    (conn : DataConnection) :
  JsMap.get p (connections c) = Some conn →
  omap attempt (snd (sendMessage p m c)) = [(p, m, negb (send_throws conn))]
  ∧ List.filter is_callback (snd (sendMessage p m c)) = [].
Proof.
  intros Hget. unfold sendMessage. rewrite Hget. by destruct (send_throws conn).
Qed.

(** X7. What reaches the room's handler is what [typeof] calls an
    object.  A string, a number, a boolean or [undefined] arriving on a
    channel is dropped by the connection without a trace: the room is
    unchanged, nothing is logged, no callback runs.  [null] is an
    object: it reaches the handler and is logged as invalid. *)
Theorem primitive_payload_ignored (conn : DataConnection) (data : JsVal) (r : Room) :
  typeof_object data = false →
  step (ChannelData conn data) r = Some (r, [])
  ∧ step (ChannelData conn JNull) r
    = Some (r, [Console ERROR "Received invalid message format"]).
Proof.
  intros Hty. rewrite !step_ChannelData, Hty. done.
Qed.

(** X8. Every frame the room builds is understood by the room that
    receives it: the serialised frame passes the connection's filter and
    the handler's guard, and the handler does what the frame's own
    handler does, with the channel's identity as the sender. *)
Theorem own_frames_understood (conn : DataConnection) (f : RoomMessage) (r : Room) :
  typeof_object (encode f) = true
  ∧ step (ChannelData conn (encode f)) r = Some (deliver f (conn_peer conn) r).
Proof.
  split; [by destruct f|].
  rewrite step_ChannelData, handleRoomMessage_encode.
  assert (Hty : typeof_object (encode f) = true) by by destruct f.
  rewrite Hty. destruct (deliver f (conn_peer conn) r) as [r' t].
  cbn. by rewrite app_nil_r.
Qed.

(** X9. When a channel opens, the connection records it and the room
    greets it: JOIN with the local member, then USER_LIST with every
    member it knows, both attempted on the new channel and on no other;
    the members do not change and no callback runs.  This is so for a
    non-empty identity; for the empty one, [sendJoinMessage] takes its
    argument for missing and the JOIN goes to every channel. *)
Theorem channel_open_greets (dialled : bool) (conn : DataConnection) (r : Room) :
  let p := conn_peer conn in
  let channels := JsMap.set p conn (connections (connection r)) in
  let ok := negb (send_throws conn) in
  ∃ t,
    step (ChannelOpen dialled conn) r
    = Some (with_connection (with_connections channels (connection r)) r, t)
    ∧ List.filter is_callback t = []
    ∧ (p ≠ "" → omap attempt t = (λ f, (p, f, ok)) <$> greeting r)
    ∧ (p = "" →
       omap attempt t
       = ((λ entry, (entry.1, JOIN (userInfo r), negb (send_throws entry.2)))
            <$> channels)
         ++ [(p, USER_LIST (getUsers r), ok)]).
Proof.
  cbv zeta. unfold step, via_connection, conn_on_open.
  cbn [run_upcalls handle_upcall mbind option_bind].
  set (c' := with_connections _ (connection r)).
  set (r1 := with_connection c' r).
  assert (Hget : JsMap.get (conn_peer conn) (connections c') = Some conn).
  { unfold c', with_connections. cbn [connections]. rewrite get_set. by case_decide. }
  destruct (snd_sendMessage_present (conn_peer conn) (USER_LIST (getUsers r)) c' conn Hget)
    as [Hul Hulcb].
  destruct (snd_sendMessage_present (conn_peer conn) (JOIN (userInfo r)) c' conn Hget)
    as [Hj Hjcb].
  assert (Hrest : run_upcalls (if dialled then [Resolve None] else []) r1
                  = Some (r1, if dialled then [Resolve None] else [])).
  { by destruct dialled. }
  unfold onConnect at 1. rewrite Hrest. cbn [mbind option_bind mret].
  eexists. split; [reflexivity|].
  unfold sendUserList, sendJoinMessage, greeting.
  change (connection r1) with c'. change (userInfo r1) with (userInfo r).
  change (getUsers r1) with (getUsers r).
  cbn [snd]. unfold nonempty.
  assert (Htail_cb : List.filter is_callback
            (if dialled then [Resolve (P:=RoomMessage) None] else []) = [])
    by by destruct dialled.
  assert (Htail_at : omap attempt
            (if dialled then [Resolve (P:=RoomMessage) None] else []) = [])
    by by destruct dialled.
  rewrite List.filter_app, omap_app, Htail_cb, Htail_at, !app_nil_r.
  change (List.filter is_callback (Console ?l ?s :: ?t))
    with (List.filter is_callback t).
  change (omap attempt (Console ?l ?s :: ?t)) with (omap attempt t).
  rewrite List.filter_app, omap_app, Hulcb, Hul, app_nil_r.
  destruct (String.eqb_spec (conn_peer conn) "") as [Hp|Hp]; cbn [negb].
  - rewrite callbacks_broadcast, attempts_broadcast. by split_and!.
  - rewrite Hjcb, Hj. by split_and!.
Qed.

Lemma membership_delete (r : Room) (k : string) :
  membership (with_users (JsMap.delete k (users r)) r) = delete k (membership r).
Proof.
  apply map_eq. intros k'.
  rewrite membership_lookup, lookup_delete, membership_lookup.
  unfold with_users at 2. cbn [users]. rewrite get_delete.
  case_decide; [done|].
  by destruct (JsMap.get k' (users r)) as [[|u]|].
Qed.

Lemma delete_absent {V} (k : string) (m : list (string * V)) :
  JsMap.get k m = None → JsMap.delete k m = m.
Proof.
  induction m as [|[k1 v1] m IH]; cbn; [done|].
  destruct (String.eqb k k1); [done|]. intros H. by rewrite IH.
Qed.

Lemma delete_set_fresh {V} (k : string) (v : V) (m : list (string * V)) :
  JsMap.get k m = None → JsMap.delete k (JsMap.set k v m) = m.
Proof.
  induction m as [|[k1 v1] m IH]; cbn.
  - by rewrite String.eqb_refl.
  - destruct (String.eqb k k1) eqn:Hk; [done|]. cbn. rewrite Hk.
    intros H. by rewrite IH.
Qed.

Lemma set_set {V} (k : string) (v w : V) (m : list (string * V)) :
  JsMap.set k w (JsMap.set k v m) = JsMap.set k w m.
Proof.
  induction m as [|[k1 v1] m IH]; cbn.
  - by rewrite String.eqb_refl.
  - destruct (String.eqb k k1) eqn:Hk; cbn; rewrite Hk; [done|]. by rewrite IH.
Qed.

(** X10. A LEAVE frame removes the member it names and no other, calls
    the leave callback when (and only when) that member was known, sends
    nothing and leaves the connection alone; the same frame again finds
    nothing to do. *)
Theorem leave_frame_removes_one (u fromPeerId again : string) (r : Room) :
  let r' := fst (deliver (LEAVE u) fromPeerId r) in
  let t := snd (deliver (LEAVE u) fromPeerId r) in
  membership r' = delete u (membership r)
  ∧ connection r' = connection r
  ∧ userInfo r' = userInfo r
  ∧ t = (if hasUser u r then [OnLeave u] else [])
  ∧ List.filter is_send t = []
  ∧ deliver (LEAVE u) again r' = (r', []).
Proof.
  cbv zeta. cbn [deliver]. unfold handleLeaveMessage, hasUser.
  destruct (JsMap.has u (users r)) eqn:Hhas; cbn [fst snd].
  - split_and!; try done.
    + apply membership_delete.
    + cbn [users with_users].
      assert (Hgone : JsMap.has u (JsMap.delete u (users r)) = false).
      { apply has_false. rewrite get_delete. by case_decide. }
      unfold with_users at 1. cbn [users]. by rewrite Hgone.
  - split_and!; try done.
    + apply has_false in Hhas. apply map_eq. intros k.
      rewrite lookup_delete. case_decide; [|done]. subst k.
      by rewrite membership_lookup, Hhas.
    + by rewrite Hhas.
Qed.

(** X11. JOIN of an unknown member followed by LEAVE of its identity
    gives back the room as it was, iteration order of the Map
    included. *)
Theorem join_then_leave_restores
    (user : UserInfo) (fromPeerId leaver : string) (r : Room) :
  hasUser (id user) r = false →
  fst (deliver (LEAVE (id user)) leaver (fst (deliver (JOIN user) fromPeerId r))) = r.
Proof.
  unfold hasUser. intros Hnew.
  cbn [deliver handleJoinMessage fst]. unfold handleLeaveMessage.
  unfold with_users at 1 2 3. cbn [users].
  assert (Hhas : JsMap.has (id user) (JsMap.set (id user) (Sent user) (users r)) = true).
  { apply has_true. rewrite get_set. case_decide; [by eexists|done]. }
  rewrite Hhas. cbn [fst]. unfold with_users. cbn.
  rewrite delete_set_fresh by by apply has_false. by destruct r.
Qed.

(** X12. JOIN is not deduplicated.  A second JOIN of the same member
    leaves the room as the first left it, and runs the join callback and
    the re-broadcast all over again. *)
Theorem join_is_not_deduplicated
    (user : UserInfo) (fromPeerId again : string) (r : Room) :
  let r1 := fst (deliver (JOIN user) fromPeerId r) in
  deliver (JOIN user) again r1 = (r1, snd (deliver (JOIN user) fromPeerId r))
  ∧ List.filter is_callback (snd (deliver (JOIN user) again r1))
    = [OnJoin (id user) (username user)].
Proof.
  cbv zeta. cbn [deliver]. split.
  - unfold handleJoinMessage. cbn [fst snd]. unfold with_users. cbn [users].
    rewrite set_set. done.
  - pose proof (handleJoinMessage_spec user again
                  (fst (handleJoinMessage user fromPeerId r))) as H.
    destruct (handleJoinMessage user again _) as [r2 t2]. by destruct H as (_ & _ & H & _).
Qed.

(** X13. A JOIN that names the local identity is announced to the
    application and sent to no one.  It replaces the local entry of the
    Map by the member of the frame, so [getUsers] shows the frame's
    display name, while [userInfo] (and with it the sender of
    [sendMessage]) keeps the name given to the constructor. *)
Theorem self_join_overwrites_quietly
    (user : UserInfo) (fromPeerId content : string) (now : Z) (r : Room) :
  id user = id (userInfo r) →
  let r' := fst (deliver (JOIN user) fromPeerId r) in
  snd (deliver (JOIN user) fromPeerId r) = [OnJoin (id user) (username user)]
  ∧ membership r' !! id (userInfo r) = Some user
  ∧ userInfo r' = userInfo r
  ∧ sender (Room_sendMessage content now r').1.1 = username (userInfo r).
Proof.
  intros Hself. cbv zeta. cbn [deliver]. unfold handleJoinMessage, broadcastJoinMessage.
  cbn [fst snd userInfo with_users]. rewrite Hself, String.eqb_refl.
  split_and!; try done.
  rewrite <- Hself at 1. rewrite Hself.
  pose proof (membership_set r (id (userInfo r)) (Sent user)) as Hm.
  rewrite Hm. apply lookup_insert_eq.
Qed.

Lemma onDisconnect_trace (p : string) (r : Room) (e : Effect RoomMessage) :
  e ∈ snd (onDisconnect p r) →
  is_console e = true
  ∨ (e = OnLeave p ∧ JsMap.has p (users r) = true)
  ∨ (JsMap.has p (users r) = true ∧ e ∈ snd (broadcast (LEAVE p) (connection r))).
Proof.
  unfold onDisconnect. destruct (JsMap.has p (users r)); cbn [snd].
  - intros [-> | [-> | He]%elem_of_cons]%elem_of_cons; auto.
  - intros ->%list_elem_of_singleton. by left.
Qed.

Lemma onDisconnect_users (p q : string) (r : Room) :
  (JsMap.has q (users (fst (onDisconnect p r))) = true → JsMap.has q (users r) = true)
  ∧ (q ≠ p → JsMap.has q (users (fst (onDisconnect p r))) = JsMap.has q (users r))
  ∧ connection (fst (onDisconnect p r)) = connection r.
Proof.
  unfold onDisconnect. destruct (JsMap.has p (users r)) eqn:Hp; cbn; [|done].
  split_and!; [| |done].
  - intros [x Hx]%has_true. rewrite get_delete in Hx. case_decide; [done|].
    apply has_true. eauto.
  - intros Hne. rewrite !has_get, get_delete. by case_decide.
Qed.

Lemma onDisconnect_OnLeave (p : string) (r : Room) :
  JsMap.has p (users r) = true → OnLeave p ∈ snd (onDisconnect p r).
Proof.
  intros Hp. unfold onDisconnect. rewrite Hp. cbn.
  apply list_elem_of_further, list_elem_of_here.
Qed.

Lemma broadcast_sends_or_logs {P} (m : P) (c : WebRTCConnection) (e : Effect P) :
  e ∈ snd (broadcast m c) → is_Some (attempt e) ∨ is_console e = true.
Proof.
  intros (entry & _ & He)%elem_of_broadcast. destruct entry as [q conn]. cbn in He.
  destruct (send_throws conn).
  - apply elem_of_cons in He as [-> | ->%list_elem_of_singleton]; [left|right]; by eauto.
  - apply list_elem_of_singleton in He as ->. left. by eexists.
Qed.

(** One turn of the [forEach] inside [leave()] is [conn.close()] with
    the room's handler run in the place of the upcall, and [leave()]
    leaves the connection as [disconnect()] does. *)
Lemma close_channel_via (k : string) (conn : DataConnection) (r : Room) :
  via_connection (conn_close k conn) r
  = Some (fst (close_all_channels [(k, conn)] r),
          snd (close_all_channels [(k, conn)] r)).
Proof.
  unfold via_connection. cbn -[onDisconnect].
  destruct (onDisconnect (conn_peer conn) _) as [r1 t1]. cbn. by rewrite !app_nil_r.
Qed.

Lemma close_all_channels_connection (entries : JsMap DataConnection) (r : Room) :
  connection (fst (close_all_channels entries r))
  = fst (close_all (P:=RoomMessage) entries (connection r)).
Proof.
  revert r. induction entries as [|[k conn] rest IH]; intros r; [done|].
  cbn [close_all_channels close_all fst]. rewrite IH.
  by destruct (onDisconnect_users (conn_peer conn) k
                 (with_connection
                    (fst (conn_close (P:=RoomMessage) k conn (connection r))) r))
    as (_ & _ & ->).
Qed.

Lemma leave_connection (r : Room) :
  connection (fst (leave r)) = fst (disconnect (P:=RoomMessage) (connection r)).
Proof.
  unfold leave, disconnect. cbn [fst connection with_users with_connection].
  by rewrite close_all_channels_connection.
Qed.

(** The [forEach] of [disconnect()] inside [leave()]: what it closes,
    whom it reports as gone, and what it sends. *)
Lemma close_all_channels_trace (entries : JsMap DataConnection) (r : Room) :
  let t := snd (close_all_channels entries r) in
  (∀ k conn, (k, conn) ∈ entries → ConnClose k ∈ t)
  ∧ (∀ p, OnLeave p ∈ t ↔
          JsMap.has p (users r) = true
          ∧ ∃ k conn, (k, conn) ∈ entries ∧ conn_peer conn = p)
  ∧ (∀ e to f ok, e ∈ t → attempt e = Some (to, f, ok) →
       ∃ p conn', f = LEAVE p
         ∧ JsMap.has p (users r) = true
         ∧ (∃ k conn, (k, conn) ∈ entries ∧ conn_peer conn = p)
         ∧ (to, conn') ∈ connections (connection r)).
Proof.
  revert r. induction entries as [|[k conn] rest IH]; intros r; cbv zeta.
  - cbn. split_and!.
    + by intros ?? ?%elem_of_nil.
    + intros p. split; [by intros ?%elem_of_nil|].
      by intros (_ & ? & ? & ?%elem_of_nil & _).
    + by intros ???? ?%elem_of_nil.
  - cbn [close_all_channels snd fst].
    set (r0 := with_connection (fst (conn_close (P:=RoomMessage) k conn (connection r))) r).
    specialize (IH (fst (onDisconnect (conn_peer conn) r0))). cbv zeta in IH.
    destruct IH as (IHc & IHl & IHa).
    assert (Hsub : ∀ to conn', (to, conn') ∈ connections (connection r0) →
                               (to, conn') ∈ connections (connection r)).
    { intros to conn' Hin. cbn in Hin. by apply elem_of_delete_inv in Hin as [_ ?]. }
    destruct (onDisconnect_users (conn_peer conn) (conn_peer conn) r0) as (_ & _ & Hconn).
    split_and!.
    + intros k' conn' [[= -> ->]|Hin]%elem_of_cons.
      * apply list_elem_of_here.
      * apply list_elem_of_further, elem_of_app. right. by eapply IHc.
    + intros p. rewrite elem_of_cons, elem_of_app. split.
      * intros [Hd|[Hh|Hr]]; [done| |].
        -- apply onDisconnect_trace in Hh as [Hc | [[Hp Hhas] | [Hhas Hb]]]; [done| |].
           ++ injection Hp as ->. split; [done|]. exists k, conn.
              split; [apply list_elem_of_here|done].
           ++ apply broadcast_sends_or_logs in Hb as [[? ?]|?]; done.
        -- apply IHl in Hr as (Hhas & k' & conn' & Hin & Hp).
           destruct (onDisconnect_users (conn_peer conn) p r0) as (Hu & _).
           split; [by apply Hu|]. exists k', conn'.
           split; [by apply list_elem_of_further|done].
      * intros (Hhas & k' & conn' & Hin & Hp).
        destruct (decide (p = conn_peer conn)) as [->|Hne].
        { right; left. by apply onDisconnect_OnLeave. }
        apply elem_of_cons in Hin as [[= -> ->]|Hin]; [done|].
        right; right. apply IHl.
        destruct (onDisconnect_users (conn_peer conn) p r0) as (_ & Hu & _).
        rewrite Hu by done. eauto.
    + intros e to f ok [-> | [Hh | Hr]%elem_of_app]%elem_of_cons Hatt; [done| |].
      * apply onDisconnect_trace in Hh as [Hc | [[-> _] | [Hhas Hb]]].
        -- destruct e; done.
        -- done.
        -- destruct (attempts_broadcast_to _ _ _ _ _ _ Hb Hatt) as (conn' & Hin & -> & _).
           exists (conn_peer conn), conn'. split_and!; [done|done| |by apply Hsub].
           exists k, conn. split; [apply list_elem_of_here|done].
      * destruct (IHa e to f ok Hr Hatt) as (p & conn' & -> & Hhas & (k' & conn0 & Hin & Hp) & Hto).
        destruct (onDisconnect_users (conn_peer conn) p r0) as (Hu & _).
        exists p, conn'. split_and!; [done|by apply Hu| |].
        -- exists k', conn0. split; [by apply list_elem_of_further|done].
        -- apply Hsub. by rewrite <- Hconn.
Qed.

(** With every channel under its own identity, the channels not yet
    closed are the ones after the channel being closed. *)
Lemma close_all_channels_attempts (entries : JsMap DataConnection) (r : Room)
    (member : string → bool) :
  connections (connection r) = entries →
  (∀ k conn, (k, conn) ∈ entries → conn_peer conn = k) →
  NoDup (JsMap.keys entries) →
  (∀ k, k ∈ JsMap.keys entries → JsMap.has k (users r) = member k) →
  omap attempt (snd (close_all_channels entries r)) = farewells member entries.
Proof.
  revert r. induction entries as [|[k conn] rest IH]; intros r Hc Hkey Hnd Hmem; [done|].
  cbn [close_all_channels snd fst farewells].
  assert (Hk : conn_peer conn = k) by (apply Hkey, list_elem_of_here).
  rewrite Hk.
  set (r0 := with_connection (fst (conn_close (P:=RoomMessage) k conn (connection r))) r).
  apply NoDup_cons in Hnd as [Hfresh Hnd].
  assert (Hrest : connections (connection r0) = rest).
  { cbn. rewrite Hc, Hk. cbn. rewrite String.eqb_refl. apply delete_absent.
    by apply get_None_not_key. }
  destruct (onDisconnect_users k k r0) as (_ & _ & Hconn).
  change (omap attempt (ConnClose k :: ?l)) with (omap attempt l).
  rewrite omap_app. f_equal.
  - unfold onDisconnect.
    change (users r0) with (users r). rewrite (Hmem k) by apply list_elem_of_here.
    destruct (member k); [|done]. cbn [snd].
    change (omap attempt (Console ?l0 ?x :: OnLeave ?y :: ?l)) with (omap attempt l).
    unfold broadcastLeaveMessage. rewrite attempts_broadcast. cbn [connection with_users].
    by rewrite Hrest.
  - apply IH.
    + by rewrite Hconn.
    + intros k' conn' Hin. by apply Hkey, list_elem_of_further.
    + done.
    + intros k' Hk'. destruct (onDisconnect_users k k' r0) as (_ & Hu & _).
      rewrite Hu by (intros ->; done).
      change (users r0) with (users r). by apply Hmem, list_elem_of_further.
Qed.

(** X14. [leave()] closes every channel, and each close runs the room's
    disconnect handler while the channels after it are still in the Map
    and the members still known.  So [leave()] reports as gone every
    member that has a channel, and sends LEAVE frames: none for the
    local member (unless a channel bears its identity), but one for each
    such member, to the channels not yet closed; with every channel
    under its own identity these are exactly the channels after the
    member's in the order of the Map.  Afterwards the room has no
    member (the local one included), the state is DISCONNECTED, and
    [sendMessage] still numbers and returns its message but reaches no
    one. *)
Theorem leave_reports_the_others (content : string) (now : Z) (k : string) (r : Room) :
  let r' := fst (leave r) in
  let t := snd (leave r) in
  (∀ p conn, (p, conn) ∈ connections (connection r) → ConnClose p ∈ t)
  ∧ (∀ p, OnLeave p ∈ t ↔
          hasUser p r = true
          ∧ ∃ q conn, (q, conn) ∈ connections (connection r) ∧ conn_peer conn = p)
  ∧ (∀ e to f ok, e ∈ t → attempt e = Some (to, f, ok) →
       ∃ p conn', f = LEAVE p ∧ OnLeave p ∈ t
                  ∧ (to, conn') ∈ connections (connection r))
  ∧ (channels_kept (connection r) →
       omap attempt t = farewells (λ p, hasUser p r) (connections (connection r)))
  ∧ getUsers r' = []
  ∧ hasUser k r' = false
  ∧ getConnectionState r' = DISCONNECTED
  ∧ Room_sendMessage content now r'
    = (mkMessage (messageIdCounter r + 1) (username (userInfo r)) content now,
       with_messageIdCounter (messageIdCounter r + 1) r', []).
Proof.
  cbv zeta.
  destruct (close_all_channels_trace (connections (connection r)) r) as (Hc & Hl & Ha).
  cbv zeta in Hc, Hl, Ha.
  assert (Hend : ∀ e, e ∈ snd (leave r) →
                      e ∈ snd (close_all_channels (connections (connection r)) r)
                      ∨ e = PeerDestroy).
  { unfold leave, disconnect_end. cbn [snd]. intros e [He|He]%elem_of_app; [by left|].
    destruct (peer _); [|by apply elem_of_nil in He].
    apply list_elem_of_singleton in He. by right. }
  assert (Hin : ∀ e, e ∈ snd (close_all_channels (connections (connection r)) r) →
                     e ∈ snd (leave r)).
  { intros e He. unfold leave. cbn [snd]. apply elem_of_app. by left. }
  split_and!; try reflexivity.
  - intros p conn Hp. eapply Hin, Hc, Hp.
  - intros p. unfold hasUser. rewrite <- Hl. split; [|apply Hin].
    by intros [?|?]%Hend.
  - intros e to f ok [He| ->]%Hend Hatt; [|done].
    destruct (Ha e to f ok He Hatt) as (p & conn' & -> & Hhas & Hch & Hto).
    exists p, conn'. split_and!; [done| |done]. apply Hin, Hl. done.
  - intros [Hkey Hnd]. unfold leave, disconnect_end. cbn [snd]. rewrite omap_app.
    rewrite (close_all_channels_attempts _ r (λ p, hasUser p r)); try done.
    destruct (peer _); cbn; by rewrite app_nil_r.
  - destruct (leave_frame r) as (_ & _ & Hui & Hn). cbv zeta in Hui, Hn.
    unfold Room_sendMessage, getNextMessageId. cbn [fst snd].
    cbn [with_messageIdCounter userInfo messageIdCounter].
    rewrite Hui, Hn. reflexivity.
Qed.

(** X15. A chat message arrives as it was sent.  The frame that
    [sendMessage] puts on every channel, delivered to any room over any
    channel, runs the message callback with the very message that
    [sendMessage] returned and the identity of the channel; the
    receiving room (its own counter included) is unchanged and sends
    nothing. *)
Theorem chat_arrives_verbatim
    (content : string) (now : Z) (a b : Room) (conn : DataConnection) :
  let m := (Room_sendMessage content now a).1.1 in
  omap attempt (Room_sendMessage content now a).2
  = ((λ entry, (entry.1, CHAT m, negb (send_throws entry.2)))
       <$> connections (connection a))
  ∧ step (ChannelData conn (encode (CHAT m))) b
    = Some (b, [OnMessage m (conn_peer conn)]).
Proof.
  cbv zeta. split.
  - unfold Room_sendMessage, getNextMessageId. cbn [fst snd].
    by rewrite attempts_broadcast.
  - rewrite step_ChannelData, handleRoomMessage_encode. done.
Qed.

(** ** The room: [join()] and the identity *)

Lemma step_PeerOpen (i : string) (r : Room) :
  step (PeerOpen i) r
  = Some ((join_resume i (with_connection (with_state CONNECTED (connection r)) r)).1,
          [Console LOG ("Peer connection established with ID: " +:+ i);
           Resolve (Some i)]
          ++ (join_resume i (with_connection (with_state CONNECTED (connection r)) r)).2).
Proof.
  unfold step, via_connection, peer_on_open. cbn [run_upcalls mbind option_bind].
  by destruct (join_resume i _) as [r2 t2].
Qed.

(** X16. When the peer opens with identity [i], the role decides.  A
    room whose [roomId] is empty or is [i] (the host) dials no one and
    is CONNECTED; any other room (a joiner) dials its [roomId], once,
    and is CONNECTING.  (The peer exists: [join()] made it.) *)
Theorem peer_open_roles (i : string) (r : Room) :
  is_Some (peer (connection r)) →
  ∃ r' t,
    step (PeerOpen i) r = Some (r', t)
    ∧ roomId r' = roomId r
    ∧ (roomId r = "" ∨ roomId r = i →
         getConnectionState r' = CONNECTED ∧ List.filter is_dial t = [])
    ∧ (roomId r ≠ "" → roomId r ≠ i →
         getConnectionState r' = CONNECTING
         ∧ List.filter is_dial t = [PeerConnect (roomId r)]).
Proof.
  intros [pr Hpeer]. rewrite step_PeerOpen. eexists _, _. split; [reflexivity|].
  unfold join_resume, nonempty.
  set (r1 := if String.eqb i (id (userInfo _)) then _ else _).
  assert (Hroom : roomId r1 = roomId r) by (unfold r1; by destruct (String.eqb i _)).
  assert (Hconn : connection r1 = with_state CONNECTED (connection r))
    by (unfold r1; by destruct (String.eqb i _)).
  rewrite Hroom.
  destruct (String.eqb_spec (roomId r) "") as [He|He];
    destruct (String.eqb_spec (roomId r) i) as [Hi|Hi]; cbn [negb andb fst snd].
  1-3: (split_and!; [done| |intros; congruence];
        intros _; unfold getConnectionState, getState; by rewrite Hconn).
  unfold connect. rewrite Hconn. cbn [peer with_state]. rewrite Hpeer.
  cbn [fst snd]. split_and!; [done|intros [?|?]; congruence|]. by intros _ _.
Qed.

Lemma elem_of_set_inv {V} (k q : string) (v w : V) (l : list (string * V)) :
  (q, w) ∈ JsMap.set k v l → (q, w) ∈ l ∨ (q = k ∧ w = v).
Proof.
  induction l as [|[k1 v1] l IH]; cbn.
  - intros [= -> ->]%list_elem_of_singleton. by right.
  - destruct (String.eqb_spec k k1) as [->|Hne].
    + intros [[= -> ->]|Hin]%elem_of_cons; [by right|].
      left. by apply list_elem_of_further.
    + intros [[= -> ->]|Hin]%elem_of_cons.
      * left. apply list_elem_of_here.
      * destruct (IH Hin) as [?|?]; [left; by apply list_elem_of_further|by right].
Qed.

Lemma join_resume_moves (i : string) (r : Room) :
  let r' := fst (join_resume i r) in
  userInfo r' = (if String.eqb i (id (userInfo r)) then userInfo r
                 else mkUserInfo i (username (userInfo r)))
  ∧ users r' = (if String.eqb i (id (userInfo r)) then users r
                else JsMap.set i Own
                       (JsMap.delete (opt_userId (options r)) (users r))).
Proof.
  unfold join_resume.
  destruct (String.eqb i (id (userInfo r)));
    match goal with
    | |- context [if ?b then _ else _] => destruct b
    end; cbn; try done;
    unfold connect; cbn; by destruct (peer (connection r)).
Qed.

(** X17. When the peer opens with an identity other than the local one,
    [join()] moves the local member: [userInfo] takes the new identity
    and keeps its display name, the Map gets the new identity as a key
    for it and loses the key given to the constructor, and every other
    key keeps its entry.  Since the Map holds the [userInfo] object
    itself, an entry that held the local member under yet another key
    now shows the new identity.  With the local identity itself, nothing
    moves. *)
Theorem assigned_identity_rekeys (i : string) (r : Room) :
  ∃ r' t,
    step (PeerOpen i) r = Some (r', t)
    ∧ userInfo r' = mkUserInfo i (username (userInfo r))
    ∧ (i = id (userInfo r) → users r' = users r)
    ∧ (i ≠ id (userInfo r) →
         membership r' !! i = Some (userInfo r')
         ∧ (opt_userId (options r) ≠ i →
              hasUser (opt_userId (options r)) r' = false)
         ∧ (∀ k, k ≠ i → k ≠ opt_userId (options r) →
              JsMap.get k (users r') = JsMap.get k (users r))
         ∧ (∀ k, k ≠ i → k ≠ opt_userId (options r) →
              JsMap.get k (users r) = Some Own →
              membership r' !! k = Some (userInfo r'))).
Proof.
  rewrite step_PeerOpen. eexists _, _. split; [reflexivity|].
  set (r0 := with_connection _ r).
  destruct (join_resume_moves i r0) as [Hui Hus]. cbn [fst] in *.
  change (userInfo r0) with (userInfo r) in *.
  change (users r0) with (users r) in *.
  change (options r0) with (options r) in *.
  set (r' := (join_resume i r0).1) in *.
  assert (Hlook : ∀ k, membership r' !! k
                       = (λ x, match x with Own => userInfo r' | Sent u => u end)
                           <$> JsMap.get k (users r')).
  { intros k. by rewrite membership_lookup. }
  destruct (String.eqb_spec i (id (userInfo r))) as [Hi|Hi].
  - split_and!; [|done|intros Hne; by destruct Hne].
    rewrite Hui, Hi. by destruct (userInfo r).
  - split_and!; [done|intros ->; by destruct Hi|]. intros _.
    split_and!.
    + rewrite Hlook, Hus, get_set. case_decide; [done|congruence].
    + intros Hne. unfold hasUser. apply has_false.
      rewrite Hus, get_set, get_delete.
      case_decide; [congruence|]. by case_decide.
    + intros k Hk Hk'. rewrite Hus, get_set, get_delete.
      case_decide; [congruence|]. case_decide; [congruence|done].
    + intros k Hk Hk' Hown. rewrite Hlook, Hus, get_set, get_delete.
      case_decide; [congruence|]. case_decide; [congruence|].
      by rewrite Hown.
Qed.

(** ** The room: the list of members and the handshake *)

Lemma keyed_with_users_set (r : Room) (k : string) (x : UserRef) :
  keyed r → id (deref r x) = k → keyed (with_users (JsMap.set k x (users r)) r).
Proof.
  intros Hr Hx k' x' Hin. cbn [users with_users] in Hin.
  apply elem_of_set_inv in Hin as [Hin|[-> ->]].
  - specialize (Hr k' x' Hin). by destruct x'.
  - by destruct x.
Qed.

Lemma keyed_with_users_delete (r : Room) (k : string) :
  keyed r → keyed (with_users (JsMap.delete k (users r)) r).
Proof.
  intros Hr k' x' Hin. cbn [users with_users] in Hin.
  apply elem_of_delete_inv in Hin as [_ Hin].
  specialize (Hr k' x' Hin). by destruct x'.
Qed.

Lemma well_kept_new (o : RoomOptions) : well_kept (Room_new o).
Proof.
  split.
  - intros k x Hin. cbn in Hin. apply list_elem_of_singleton in Hin.
    by injection Hin as -> ->.
  - cbn. apply NoDup_singleton.
Qed.

Lemma well_kept_set (r : Room) (u : UserInfo) :
  well_kept r → well_kept (with_users (JsMap.set (id u) (Sent u) (users r)) r).
Proof.
  intros [Hk Hn]. split.
  - by apply keyed_with_users_set.
  - cbn [users with_users]. by apply NoDup_keys_set.
Qed.

Lemma well_kept_userList (us : list UserInfo) (r : Room) :
  well_kept r → well_kept (fst (handleUserListMessage us r)).
Proof.
  revert r. induction us as [|u us IH]; intros r Hr; [done|].
  cbn [handleUserListMessage].
  destruct (JsMap.has (id u) (users r)); [by apply IH|].
  specialize (IH _ (well_kept_set r u Hr)).
  by destruct (handleUserListMessage us _).
Qed.

Lemma well_kept_deliver (f : RoomMessage) (fromPeerId : string) (r : Room) :
  well_kept r → well_kept (fst (deliver f fromPeerId r)).
Proof.
  intros Hr. destruct f as [u|k|m|us]; cbn [deliver].
  - by apply well_kept_set.
  - unfold handleLeaveMessage. destruct (JsMap.has k (users r)); [|done].
    destruct Hr as [Hk Hn]. split.
    + by apply keyed_with_users_delete.
    + cbn [fst users with_users]. by apply NoDup_keys_delete.
  - done.
  - by apply well_kept_userList.
Qed.

Lemma well_kept_deliver_all (fs : list (string * RoomMessage)) (r : Room) :
  well_kept r → well_kept (fst (deliver_all fs r)).
Proof.
  revert r. induction fs as [|[p f] fs IH]; intros r Hr; [done|].
  cbn [deliver_all]. pose proof (well_kept_deliver f p r Hr) as H1.
  destruct (deliver f p r) as [r1 t1]. specialize (IH r1 H1).
  by destruct (deliver_all fs r1).
Qed.

Lemma getUsers_by_id (r : Room) :
  keyed r → by_id (getUsers r) = prod_map (λ k : string, k) (deref r) <$> users r.
Proof.
  unfold keyed, by_id, getUsers, JsMap.values.
  induction (users r) as [|[k x] l IH]; intros Hk; [done|].
  rewrite !fmap_cons. cbn [prod_map fst snd]. f_equal.
  - f_equal. apply Hk, list_elem_of_here.
  - apply IH. intros k' x' Hin. by apply Hk, list_elem_of_further.
Qed.

Lemma getUsers_membership (r : Room) :
  keyed r → list_to_map (by_id (getUsers r)) = membership r.
Proof. intros Hk. by rewrite getUsers_by_id. Qed.

Lemma fst_prod_map_deref (r : Room) (l : JsMap UserRef) :
  (prod_map (λ k : string, k) (deref r) <$> l).*1 = l.*1.
Proof. induction l as [|[k x] l IH]; [done|]. rewrite !fmap_cons. cbn. by f_equal. Qed.

(** X18. After any frames, in a room made by the constructor, the list
    of [getUsers()] is the membership mapping: every member is stored
    under its own identity, no identity is listed twice, and the list
    has as many entries as the mapping. *)
Theorem getUsers_is_the_mapping (o : RoomOptions) (fs : list (string * RoomMessage)) :
  let r := fst (deliver_all fs (Room_new o)) in
  keyed r
  ∧ NoDup (id <$> getUsers r)
  ∧ list_to_map (by_id (getUsers r)) = membership r
  ∧ (∀ u, u ∈ getUsers r ↔ membership r !! id u = Some u)
  ∧ length (getUsers r) = size (membership r).
Proof.
  cbv zeta.
  destruct (well_kept_deliver_all fs (Room_new o) (well_kept_new o)) as [Hk Hn].
  set (r := (deliver_all fs (Room_new o)).1) in *.
  pose proof (getUsers_by_id r Hk) as Hby.
  assert (Hids : id <$> getUsers r = JsMap.keys (users r)).
  { transitivity ((by_id (getUsers r)).*1).
    - unfold by_id. rewrite <- list_fmap_compose. done.
    - rewrite Hby. apply fst_prod_map_deref. }
  assert (Hnd : NoDup (by_id (getUsers r)).*1).
  { rewrite Hby, fst_prod_map_deref. exact Hn. }
  split_and!.
  - exact Hk.
  - by rewrite Hids.
  - by apply getUsers_membership.
  - intros u. rewrite <- (getUsers_membership r Hk).
    rewrite <- elem_of_list_to_map by done. unfold by_id.
    rewrite list_elem_of_fmap. split.
    + intros Hu. by exists u.
    + by intros (u' & [= _ ->] & Hu').
  - rewrite <- (getUsers_membership r Hk), map_size_list_to_map by done.
    unfold by_id. by rewrite length_fmap.
Qed.

Lemma get_elem_of_NoDup {V} (k : string) (v : V) (m : list (string * V)) :
  NoDup (JsMap.keys m) → (k, v) ∈ m → JsMap.get k m = Some v.
Proof.
  unfold JsMap.keys. induction m as [|[k1 v1] m IH]; [by intros _ ?%elem_of_nil|].
  rewrite fmap_cons. cbn [fst JsMap.get]. intros [Hk1 Hnd]%NoDup_cons.
  intros [[= -> ->]|Hin]%elem_of_cons.
  - by rewrite String.eqb_refl.
  - destruct (String.eqb_spec k k1) as [->|_]; [|by apply IH].
    destruct Hk1. apply list_elem_of_fmap. by exists (k1, v).
Qed.

Lemma getUsers_listed (r : Room) (u : UserInfo) :
  well_kept r → u ∈ getUsers r → membership r !! id u = Some u.
Proof.
  intros [Hk Hn]. unfold getUsers, JsMap.values.
  rewrite <- list_fmap_compose. intros ([k x] & -> & Hin)%list_elem_of_fmap.
  cbn. rewrite (Hk k x Hin), membership_lookup.
  by rewrite (get_elem_of_NoDup k x (users r) Hn Hin).
Qed.

Lemma compatible_union (m1 m2 : gmap string UserInfo) :
  compatible m1 m2 → m2 ∪ m1 = m1 ∪ m2.
Proof.
  intros Hc. apply map_eq. intros k. rewrite !lookup_union.
  destruct (m1 !! k) as [u|] eqn:H1, (m2 !! k) as [v|] eqn:H2; try done.
  cbn. by rewrite (Hc k u v H1 H2).
Qed.

Lemma greeting_received (a b : Room) :
  well_kept b →
  membership b !! id (userInfo b) = Some (userInfo b) →
  compatible (membership a) (membership b) →
  membership (fst (deliver_all ((λ f, (id (userInfo b), f)) <$> greeting b) a))
  = membership a ∪ membership b.
Proof.
  intros Hb Hself Hc.
  assert (Hin : ∀ u, u ∈ userInfo b :: getUsers b → membership b !! id u = Some u).
  { intros u [->|Hu]%elem_of_cons; [done|]. by apply getUsers_listed. }
  rewrite deliver_all_union.
  - unfold greeting. cbn [fmap list_fmap announcements snd announced concat].
    rewrite app_nil_r. f_equal.
    change (userInfo b :: getUsers b) with ([userInfo b] ++ getUsers b).
    unfold by_id. rewrite fmap_app, list_to_map_app.
    fold (by_id (getUsers b)). rewrite getUsers_membership by apply Hb.
    cbn. rewrite insert_empty, <- insert_union_singleton_l.
    by apply insert_id.
  - by repeat constructor.
  - unfold greeting. cbn [fmap list_fmap announcements snd announced concat].
    rewrite app_nil_r. intros u Hu. split.
    + intros v Hv. apply (Hc _ _ _ Hv). by apply Hin.
    + intros u' Hu' Hid. apply Hin in Hu, Hu'. rewrite Hid in Hu'. congruence.
Qed.

(** X19. The greeting makes two rooms agree.  Two rooms whose members
    are each stored once, under their own identity, the local one
    included, and whose mappings give the same member wherever both have
    one: when each handles the greeting of the other (JOIN, then
    USER_LIST), both end with the same mapping, the union of the two. *)
Theorem handshake_converges (a b : Room) :
  keyed a → NoDup (JsMap.keys (users a)) →
  keyed b → NoDup (JsMap.keys (users b)) →
  membership a !! id (userInfo a) = Some (userInfo a) →
  membership b !! id (userInfo b) = Some (userInfo b) →
  compatible (membership a) (membership b) →
  let a' := fst (deliver_all ((λ f, (id (userInfo b), f)) <$> greeting b) a) in
  let b' := fst (deliver_all ((λ f, (id (userInfo a), f)) <$> greeting a) b) in
  membership a' = membership a ∪ membership b
  ∧ membership b' = membership a'.
Proof.
  intros Hka Hna Hkb Hnb Hsa Hsb Hc. cbv zeta.
  rewrite (greeting_received a b) by done.
  rewrite (greeting_received b a); [|done|done|].
  - split; [done|]. by apply compatible_union.
  - intros k u v Hu Hv. symmetry. by eapply Hc.
Qed.

(** ** The room: joining, joining again, errors *)

Lemma has_set_same {V} (k : string) (v : V) (m : list (string * V)) :
  JsMap.has k (JsMap.set k v m) = true.
Proof. apply has_true. rewrite get_set. case_decide; [by eexists|done]. Qed.

(** X27. After [join()] and the open of the peer, a new room has one
    member: the local one, under the identity the peer opened with and
    with the display name given to the constructor.  The peer was asked
    for the constructor's identity, or for none when that is empty. *)
Theorem join_leaves_one_member (o : RoomOptions) (i : string) :
  ∃ r t,
    run [CallJoin; PeerOpen i] (Room_new o) = Some (r, t)
    ∧ getUsers r = [mkUserInfo i (opt_username o)]
    ∧ userInfo r = mkUserInfo i (opt_username o)
    ∧ hasUser i r = true
    ∧ head t = Some (NewPeer (if nonempty (opt_userId o)
                              then Some (opt_userId o) else None)).
Proof.
  cbn [run]. change (step CallJoin ?x) with (Some (join_begin x)).
  unfold join_begin, initialize.
  cbn [mbind option_bind mret option_ret]. rewrite step_PeerOpen.
  cbn [mbind option_bind fst snd]. eexists _, _. split; [reflexivity|].
  set (r0 := with_connection _ _).
  destruct (join_resume_moves i r0) as [Hui Hus]. cbn [fst] in Hui, Hus.
  unfold getUsers, hasUser, JsMap.values. rewrite Hus.
  change (userInfo r0) with (mkUserInfo (opt_userId o) (opt_username o)) in *.
  change (users r0) with (JsMap.set (opt_userId o) Own []) in *.
  change (options r0) with o in *. cbn [id username] in *.
  assert (Hdr : ∀ x, deref (join_resume i r0).1 x
                     = match x with Own => userInfo (join_resume i r0).1 | Sent u => u end)
    by by intros [].
  destruct (String.eqb_spec i (opt_userId o)) as [->|Hne].
  - split_and!; [|done|apply has_set_same|done].
    cbn. by rewrite ?Hdr, ?Hui.
  - rewrite delete_set_fresh by done.
    split_and!; [|done|apply has_set_same|done].
    cbn. by rewrite ?Hdr, ?Hui.
Qed.

(** X28. A room that leaves and joins again under the identity it had
    is left without its local member: [leave()] empties the Map, and
    [join()] stores the local member only when the identity changed.
    Under a new identity the local member is stored again. *)
Theorem rejoin_forgets_self (i : string) (r : Room) :
  ∃ r' t,
    run [CallLeave; CallJoin; PeerOpen i] r = Some (r', t)
    ∧ userInfo r' = mkUserInfo i (username (userInfo r))
    ∧ (i = id (userInfo r) → getUsers r' = [] ∧ hasUser i r' = false)
    ∧ (i ≠ id (userInfo r) → getUsers r' = [userInfo r'] ∧ hasUser i r' = true).
Proof.
  pose proof (leave_frame r) as (_ & _ & Hui0 & _). cbv zeta in Hui0.
  assert (Hus0 : users (fst (leave r)) = []) by reflexivity.
  cbn [run]. change (step CallLeave ?x) with (Some (leave x)).
  cbn [mbind option_bind mret option_ret].
  destruct (leave r) as [r1 t1]. cbn [fst] in Hui0, Hus0.
  change (step CallJoin ?x) with (Some (join_begin x)).
  unfold join_begin, initialize.
  cbn [mbind option_bind mret option_ret]. rewrite step_PeerOpen.
  cbn [mbind option_bind fst snd]. eexists _, _. split; [reflexivity|].
  set (r0 := with_connection _ _).
  destruct (join_resume_moves i r0) as [Hui Hus]. cbn [fst] in Hui, Hus.
  unfold getUsers, hasUser, JsMap.values. rewrite Hus, Hui.
  change (userInfo r0) with (userInfo r1) in *.
  change (users r0) with (users r1) in *.
  rewrite Hui0, Hus0 in *.
  assert (Hdr : ∀ x, deref (join_resume i r0).1 x
                     = match x with Own => userInfo (join_resume i r0).1 | Sent u => u end)
    by by intros [].
  destruct (String.eqb_spec i (id (userInfo r))) as [Hi|Hi].
  - split_and!; [|done|intros Hne; by destruct Hne].
    rewrite Hi. by destruct (userInfo r).
  - split_and!; [done|intros ->; by destruct Hi|]. intros _.
    split; [|apply has_set_same]. cbn. by rewrite ?Hdr, ?Hui.
Qed.

(** X29. Errors are reported and nothing else.  An error of the peer,
    or of a channel that [connect] dialled, runs the error callback
    once; the room, its members and its channels are as they were, and
    nothing is sent.  An error of a channel that was accepted reaches no
    one: no listener is registered for it, so neither the callback nor
    the console hears of it. *)
Theorem errors_are_only_reported (e : JsError) (conn : DataConnection) (r : Room) :
  ∃ t1 t2,
    step (PeerError e) r = Some (r, t1)
    ∧ step (ChannelError true conn e) r = Some (r, t2)
    ∧ List.filter is_callback t1 = [OnError e]
    ∧ List.filter is_callback t2 = [OnError e]
    ∧ List.filter is_send t1 = []
    ∧ List.filter is_send t2 = []
    ∧ step (ChannelError false conn e) r = Some (r, []).
Proof.
  unfold step, via_connection, peer_on_error, conn_on_error.
  rewrite with_connection_same.
  destruct (state (connection r)); cbn; eexists _, _; by split_and!.
Qed.

(** ** The Map of channels *)

Lemma kept_set (conn : DataConnection) c :
  channels_kept c →
  channels_kept (with_connections (JsMap.set (conn_peer conn) conn (connections c)) c).
Proof.
  intros [Hkey Hnd]. split; cbn [with_connections connections].
  - intros k conn' [Hin|[-> ->]]%elem_of_set_inv; [by apply Hkey|done].
  - by apply NoDup_keys_set.
Qed.

Lemma kept_delete (k : string) c :
  channels_kept c →
  channels_kept (with_connections (JsMap.delete k (connections c)) c).
Proof.
  intros [Hkey Hnd]. split; cbn [with_connections connections].
  - intros k' conn' [_ Hin]%elem_of_delete_inv. by apply Hkey.
  - by apply NoDup_keys_delete.
Qed.

Lemma kept_same c c' :
  connections c' = connections c → channels_kept c → channels_kept c'.
Proof. unfold channels_kept. by intros ->. Qed.

Lemma conn_step_kept {P} (op : ConnOp P) c :
  channels_kept c → channels_kept (fst (conn_step op c)).
Proof.
  intros Hc. destruct op; cbn [conn_step fst]; try done.
  - unfold connect. destruct (peer c); [|done]. by apply (kept_same c).
  - by apply kept_set.
  - by destruct dialled.
  - by apply kept_delete.
  - unfold disconnectFrom. destruct (JsMap.get peerId (connections c)); [|done].
    cbn [fst conn_close conn_on_close].
    apply (kept_delete peerId (with_connections _ c)). by apply kept_delete.
  - split; cbn; [by intros ?? ?%elem_of_nil|constructor].
Qed.

(** With every channel under its own identity, each close listener
    takes its own channel out of the Map: the [forEach] of
    [disconnect()] leaves none for [clear()]. *)
Lemma close_all_empties {P} (entries : JsMap DataConnection) c :
  connections c = entries → channels_kept c →
  connections (fst (close_all (P:=P) entries c)) = [].
Proof.
  revert c. induction entries as [|[k conn] rest IH]; intros c Hc Hkept; [done|].
  cbn [close_all fst conn_close conn_on_close]. apply IH; [|by apply kept_delete].
  destruct Hkept as [Hkey Hnd]. rewrite Hc in Hkey, Hnd |- *.
  rewrite (Hkey k conn) by apply list_elem_of_here.
  cbn. rewrite String.eqb_refl. apply delete_absent.
  apply NoDup_cons in Hnd as [Hfresh _]. by apply get_None_not_key.
Qed.

Lemma step_kept (ev : Event) (r r' : Room) (t : Trace) :
  step ev r = Some (r', t) →
  channels_kept (connection r) → channels_kept (connection r').
Proof.
  intros Hstep Hkept.
  assert (Hvia : ∀ op : ConnOp RoomMessage,
            via_connection (conn_step op) r = Some (r', t) →
            channels_kept (connection r')).
  { intros op [m ->]%via_connection_frame. cbn. by apply conn_step_kept. }
  destruct ev; cbn [step] in Hstep.
  - destruct (via_connection (peer_on_open id0) r) as [[r1 t1]|] eqn:Hv; [|done].
    cbn in Hstep. apply via_connection_frame in Hv as [m ->].
    unfold join_resume in Hstep.
    repeat match type of Hstep with
           | context [if ?b then _ else _] => destruct b
           end;
      cbn in Hstep; try (by injection Hstep as <- _);
      unfold connect in Hstep; cbn in Hstep;
      destruct (peer (connection r)); by injection Hstep as <- _.
  - by apply (Hvia (OpPeerError e)).
  - by apply (Hvia (OpIncoming conn)).
  - by apply (Hvia (OpChannelOpen dialled conn)).
  - destruct dialled; [by apply (Hvia (OpChannelError true conn e))|].
    by injection Hstep as <- _.
  - by apply (Hvia (OpChannelData conn data)).
  - by apply (Hvia (OpChannelClose conn)).
  - unfold join_begin, initialize in Hstep. by injection Hstep as <- _.
  - injection Hstep as <- _. split; cbn; [by intros ?? ?%elem_of_nil|constructor].
  - unfold Room_sendMessage in Hstep. cbn in Hstep. by injection Hstep as <- _.
Qed.

(** X30. The Map of channels has every channel under the identity of
    its remote peer and no identity twice, in a room made by the
    constructor after any events and calls, and in a connection made by
    its constructor after any listeners and methods.  So when
    [disconnect()] closes the channels one after the other, the close
    listener of each takes that channel, and no other, out of the Map,
    and none is left for [clear()]. *)
Theorem channels_stay_kept
    (o : RoomOptions) (evs : list Event) (r : Room) (t : Trace)
    (userId : string) (ops : list (ConnOp RoomMessage)) :
  run evs (Room_new o) = Some (r, t) →
  channels_kept (connection r)
  ∧ channels_kept (conn_run ops (WebRTCConnection_new userId))
  ∧ connections (fst (close_all (P:=RoomMessage)
                        (connections (connection r)) (connection r))) = [].
Proof.
  intros Hrun.
  assert (Hnew : ∀ u, channels_kept (WebRTCConnection_new u)).
  { intros u. split; cbn; [by intros ?? ?%elem_of_nil|constructor]. }
  assert (Hroom : channels_kept (connection r)).
  { assert (H : ∀ r0, channels_kept (connection r0) →
                      run evs r0 = Some (r, t) → channels_kept (connection r)).
    { clear Hrun. revert t. induction evs as [|ev evs IH]; intros t r0 Hk; cbn [run].
      - by intros [= <- _].
      - destruct (step ev r0) as [[r1 t1]|] eqn:Hstep; [|done]. cbn.
        destruct (run evs r1) as [[r2 t2]|] eqn:Hrest; [|done]. cbn.
        intros [= <- _]. eapply IH; [|exact Hrest]. by eapply step_kept. }
    eapply H; [|exact Hrun]. apply Hnew. }
  split_and!; [done| |by apply close_all_empties].
  generalize (Hnew userId). generalize (WebRTCConnection_new userId).
  induction ops as [|op ops IH]; intros c Hc; [done|].
  cbn [conn_run]. apply IH. by apply conn_step_kept.
Qed.

(** ** home.tsx and chat.tsx: identities, errors, the input line *)

Lemma all_from_spec (n : nat) (f : N → bool) (from k : N) :
  Home.all_from n f from = true →
  (from ≤ k)%N → (k < from + N.of_nat n)%N → f k = true.
Proof.
  revert from. induction n as [|n IH]; intros from Hall Hle Hlt; [lia|].
  cbn [Home.all_from] in Hall. apply andb_prop in Hall as [Hhere Hrest].
  destruct (decide (k = from)) as [->|Hne]; [done|].
  apply (IH (N.succ from)); [done|lia|lia].
Qed.

Lemma created_ids_checked :
  Home.all_from (N.to_nat 90000) (λ k, Home.five_digits (Home.created_id k)) 0 = true.
Proof. vm_compute. reflexivity. Qed.

Lemma created_id_five_digits (k : N) :
  (k < 90000)%N → Home.five_digits (Home.created_id k) = true.
Proof.
  intros Hk.
  apply (all_from_spec (N.to_nat 90000)
           (λ k, Home.five_digits (Home.created_id k)) 0 k);
    [apply created_ids_checked|lia|rewrite N2Nat.id; lia].
Qed.

(** X20. A room made by [handleCreate] has an identity of five decimal
    digits that does not start with 0, whatever the random number, and
    the page navigates to the chat of that room as its host. *)
Theorem created_room_has_five_digits (k : N) :
  (k < 90000)%N →
  Home.five_digits (Home.created_id k) = true
  ∧ Home.handleCreate k = "/chat?room=" +:+ Home.created_id k +:+ "&host=true".
Proof. intros Hk. split; [by apply created_id_five_digits|done]. Qed.

(** X21. The host registers under the room identity itself, which is
    what a guest dials; a guest registers under an identity that starts
    with [guest-], so it is never the identity of a room made by
    [handleCreate]. *)
Theorem guest_id_is_no_created_room (roomId random : string) (now k : N) :
  (k < 90000)%N →
  ChatPage.generatePeerId true roomId random now = roomId
  ∧ (∃ rest, ChatPage.generatePeerId false roomId random now = "guest-" +:+ rest)
  ∧ ChatPage.generatePeerId false roomId random now ≠ Home.created_id k.
Proof.
  intros Hk. split_and!; [done|by eexists|].
  intros Heq. pose proof (created_id_five_digits k Hk) as Hfive.
  rewrite <- Heq in Hfive. discriminate Hfive.
Qed.

Lemma on_error_cases (err : JsError) (st : Chat.State) :
  (Chat.identity_taken err = true ∧ (Chat.retryCount st < Chat.MAX_RETRIES)%nat
   ∧ List.filter Chat.is_retry (snd (Chat.on_error err st))
     = [Chat.SetTimeout Chat.InitializePeer 1000]
   ∧ Chat.connectionError (fst (Chat.on_error err st)) = Chat.connectionError st
   ∧ Chat.isConnecting (fst (Chat.on_error err st)) = Chat.isConnecting st
   ∧ Chat.retryCount (fst (Chat.on_error err st)) = S (Chat.retryCount st))
  ∨ ((Chat.identity_taken err = false ∨ (Chat.MAX_RETRIES ≤ Chat.retryCount st)%nat)
     ∧ List.filter Chat.is_retry (snd (Chat.on_error err st)) = []
     ∧ is_Some (Chat.connectionError (fst (Chat.on_error err st)))
     ∧ Chat.isConnecting (fst (Chat.on_error err st)) = false
     ∧ Chat.retryCount (fst (Chat.on_error err st)) = Chat.retryCount st).
Proof.
  destruct (Chat.identity_taken err) eqn:Ht.
  - rewrite on_error_taken by done.
    destruct (Nat.ltb_spec (Chat.retryCount st) Chat.MAX_RETRIES).
    + left. cbn. split_and!; try done. lia.
    + right. cbn. split_and!; try done; try (by right); by eexists.
  - right. destruct (on_error_other err st Ht) as [H1 H2].
    split_and!; [by left|done| |  |done].
    + revert Ht. unfold Chat.identity_taken, Chat.on_error.
      destruct (String.eqb (err_type err) "peer-unavailable"); [by eexists|].
      destruct (String.eqb (err_type err) "disconnected"); [by eexists|].
      destruct (String.eqb (err_type err) "network"); [by eexists|].
      cbn. intros ->. by eexists.
    + revert Ht. unfold Chat.identity_taken, Chat.on_error.
      destruct (String.eqb (err_type err) "peer-unavailable"); [done|].
      destruct (String.eqb (err_type err) "disconnected"); [done|].
      destruct (String.eqb (err_type err) "network"); [done|].
      cbn. by intros ->.
Qed.

(** X22. No error of the peer is swallowed, and none is both retried
    and shown.  The listener either schedules one retry and shows
    nothing new (an identity-taken failure below the ceiling), or
    schedules nothing, shows an error and turns the connecting flag off.
    An error typed peer-unavailable, disconnected or network is never
    retried, whatever its message says. *)
Theorem peer_error_retried_or_shown (err : JsError) (st : Chat.State) :
  let st' := fst (Chat.on_error err st) in
  let out := snd (Chat.on_error err st) in
  ((List.filter Chat.is_retry out = [Chat.SetTimeout Chat.InitializePeer 1000]
    ∧ Chat.connectionError st' = Chat.connectionError st
    ∧ Chat.isConnecting st' = Chat.isConnecting st)
   ∨ (List.filter Chat.is_retry out = []
      ∧ is_Some (Chat.connectionError st')
      ∧ Chat.isConnecting st' = false
      ∧ Chat.retryCount st' = Chat.retryCount st))
  ∧ (err_type err = "peer-unavailable" ∨ err_type err = "disconnected"
     ∨ err_type err = "network" →
     List.filter Chat.is_retry out = []).
Proof.
  cbv zeta. split.
  - destruct (on_error_cases err st) as [(_ & _ & H1 & H2 & H3 & _)|(_ & H)];
      [left|right]; done.
  - intros Hty. apply on_error_other. unfold Chat.identity_taken.
    destruct Hty as [-> | [-> | ->]]; reflexivity.
Qed.

Lemma step_retries (seen : option string) (ev : Chat.Event) (st : Chat.State)
    (o : Chat.Out) :
  o ∈ snd (Chat.step seen ev st) → Chat.is_retry o = true →
  o = Chat.SetTimeout Chat.InitializePeer 1000.
Proof.
  destruct ev as [a p|err| |]; cbn [Chat.step].
  - unfold Chat.initializePeer. destruct a; cbn.
    + by intros ->%list_elem_of_singleton.
    + by intros ?%elem_of_nil.
  - intros Ho Hr.
    assert (Hf : o ∈ List.filter Chat.is_retry (snd (Chat.on_error err st))).
    { apply list_elem_of_In, List.filter_In. split; [by apply list_elem_of_In|done]. }
    destruct (on_error_cases err st) as [(_ & _ & H & _)|(_ & H & _)];
      rewrite H in Hf.
    + by apply list_elem_of_singleton in Hf.
    + by apply elem_of_nil in Hf.
  - cbn. by intros [-> | ->%list_elem_of_singleton]%elem_of_cons.
  - cbn. by intros [-> | ->%list_elem_of_singleton]%elem_of_cons.
Qed.

Lemma run_retries (seen : option string) (evs : list Chat.Event) (st : Chat.State)
    (o : Chat.Out) :
  o ∈ snd (Chat.run seen evs st) → Chat.is_retry o = true →
  o = Chat.SetTimeout Chat.InitializePeer 1000.
Proof.
  revert st. induction evs as [|ev evs IH]; intros st; cbn [Chat.run].
  - by intros ?%elem_of_nil.
  - pose proof (step_retries seen ev st o) as Hstep.
    destruct (Chat.step seen ev st) as [st1 o1]. specialize (IH st1).
    destruct (Chat.run seen evs st1) as [st2 o2]. cbn [snd] in *.
    intros [?|?]%elem_of_app; auto.
Qed.

(** X23. Identity collisions are retried three times and no more.
    Whatever the effect has been through ([evs]: runs of
    [initializePeer] and events of its peers, of which [failures] were
    identity-taken errors), the retry count is [failures] capped at the
    ceiling 3 and as many retries were scheduled, each of them
    [initializePeer] after 1000 ms; an identity-taken error below the
    ceiling schedules one more, one at the ceiling schedules none.  The
    retry is not silent: in an effect whose closure has no error, the
    close listener that runs after the error shows the connection-closed
    text and turns the connecting flag off, until the retry's
    [initializePeer] clears the error and turns the flag on again. *)
Theorem retries_are_capped
    (seen : option string) (evs : list Chat.Event) (err : JsError) (peerId : string) :
  Chat.identity_taken err = true →
  let st := fst (Chat.run seen evs Chat.initial) in
  let failures := length (List.filter Chat.is_identity_failure evs) in
  let st' := fst (Chat.on_error err st) in
  let out := snd (Chat.on_error err st) in
  Chat.retryCount st = Nat.min failures Chat.MAX_RETRIES
  ∧ length (List.filter Chat.is_retry (snd (Chat.run seen evs Chat.initial)))
    = Nat.min failures Chat.MAX_RETRIES
  ∧ (∀ o, o ∈ snd (Chat.run seen evs Chat.initial) → Chat.is_retry o = true →
          o = Chat.SetTimeout Chat.InitializePeer 1000)
  ∧ ((failures < Chat.MAX_RETRIES)%nat →
       List.filter Chat.is_retry out = [Chat.SetTimeout Chat.InitializePeer 1000]
       ∧ Chat.retryCount st' = S failures)
  ∧ ((Chat.MAX_RETRIES ≤ failures)%nat →
       List.filter Chat.is_retry out = []
       ∧ Chat.retryCount st' = Chat.MAX_RETRIES)
  ∧ (Chat.no_error seen = true →
       let closed := fst (Chat.run seen [Chat.PeerDisconnected; Chat.PeerClosed] st') in
       let again := fst (Chat.initializePeer true peerId closed) in
       Chat.connectionError closed = Some Chat.closed_text
       ∧ Chat.isConnecting closed = false
       ∧ Chat.connectionError again = None
       ∧ Chat.isConnecting again = true
       ∧ Chat.retryCount again = Chat.retryCount st').
Proof.
  intros Htaken. cbv zeta.
  destruct (chat_run_counts seen evs Chat.initial) as [Hcount Hretries]; [cbn; lia|].
  cbn [Chat.initial Chat.retryCount] in Hcount, Hretries.
  rewrite Nat.add_0_r in Hretries. cbn [Nat.add] in Hcount, Hretries.
  split_and!; [done|done|apply run_retries| | |].
  - intros Hlt. rewrite on_error_taken by done. rewrite Hcount.
    rewrite Nat.min_l by lia.
    destruct (Nat.ltb_spec (length (List.filter Chat.is_identity_failure evs))
                Chat.MAX_RETRIES); [|lia].
    cbn. split; [done|lia].
  - intros Hge. rewrite on_error_taken by done. rewrite Hcount.
    rewrite Nat.min_r by lia.
    by destruct (Nat.ltb_spec Chat.MAX_RETRIES Chat.MAX_RETRIES); [lia|].
  - intros Hseen. cbn. by rewrite Hseen.
Qed.

(** ** The input line *)

Lemma trimStart_split (s : list N) :
  ∃ pre, s = pre ++ JsString.trimStart s
         ∧ Forall (λ c, JsString.is_white_space c = true) pre.
Proof.
  induction s as [|c s (pre & Hs & Hpre)]; [by exists []|].
  cbn [JsString.trimStart]. destruct (JsString.is_white_space c) eqn:Hc.
  - exists (c :: pre). split; [cbn; by f_equal|by constructor].
  - by exists [].
Qed.

Lemma trimStart_head (s : list N) (c : N) :
  head (JsString.trimStart s) = Some c → JsString.is_white_space c = false.
Proof.
  induction s as [|c' s IH]; [done|]. cbn [JsString.trimStart].
  destruct (JsString.is_white_space c') eqn:Hc; [done|]. by intros [= <-].
Qed.

Lemma trimStart_fixed (s : list N) :
  (∀ c, head s = Some c → JsString.is_white_space c = false) →
  JsString.trimStart s = s.
Proof. destruct s as [|c s]; [done|]. intros H. cbn. by rewrite (H c eq_refl). Qed.

Lemma trimStart_blank (s : list N) :
  JsString.trimStart s = [] ↔ Forall (λ c, JsString.is_white_space c = true) s.
Proof.
  induction s as [|c s IH]; [done|]. cbn [JsString.trimStart].
  destruct (JsString.is_white_space c) eqn:Hc.
  - rewrite IH. split; [by constructor|by intros [_ ?]%Forall_cons].
  - split; [done|]. intros [? _]%Forall_cons. congruence.
Qed.

Lemma trimEnd_split (s : list N) :
  ∃ suf, s = JsString.trimEnd s ++ suf
         ∧ Forall (λ c, JsString.is_white_space c = true) suf.
Proof.
  destruct (trimStart_split (reverse s)) as (pre & Hs & Hpre).
  exists (reverse pre). split.
  - unfold JsString.trimEnd. rewrite <- reverse_app, <- Hs. by rewrite reverse_involutive.
  - by apply Forall_reverse.
Qed.

Lemma trimEnd_last (s : list N) (c : N) :
  last (JsString.trimEnd s) = Some c → JsString.is_white_space c = false.
Proof.
  unfold JsString.trimEnd. rewrite last_reverse. apply trimStart_head.
Qed.

Lemma trimEnd_fixed (s : list N) :
  (∀ c, last s = Some c → JsString.is_white_space c = false) →
  JsString.trimEnd s = s.
Proof.
  intros H. unfold JsString.trimEnd. rewrite trimStart_fixed.
  - apply reverse_involutive.
  - intros c Hc. apply H. by rewrite <- head_reverse.
Qed.

Lemma trim_head (s : list N) (c : N) :
  head (JsString.trim s) = Some c → JsString.is_white_space c = false.
Proof.
  unfold JsString.trim. intros Hc.
  destruct (trimEnd_split (JsString.trimStart s)) as (suf & Hs & _).
  apply (trimStart_head s). rewrite Hs.
  destruct (JsString.trimEnd (JsString.trimStart s)); [done|]. exact Hc.
Qed.

Lemma trim_blank (s : list N) :
  JsString.trim s = [] ↔ Forall (λ c, JsString.is_white_space c = true) s.
Proof.
  unfold JsString.trim. split.
  - intros Hnil. apply trimStart_blank.
    destruct (trimEnd_split (JsString.trimStart s)) as (suf & Hs & Hsuf).
    rewrite Hnil in Hs. cbn in Hs.
    destruct (JsString.trimStart s) as [|c t] eqn:Ht; [done|].
    pose proof (trimStart_head s c) as Hc. rewrite Ht in Hc.
    specialize (Hc eq_refl). rewrite <- Hs in Hsuf.
    apply Forall_cons in Hsuf as [? _]. congruence.
  - intros Hb. apply trimStart_blank in Hb. by rewrite Hb.
Qed.

Lemma trim_trim (s : list N) : JsString.trim (JsString.trim s) = JsString.trim s.
Proof.
  unfold JsString.trim at 1.
  rewrite (trimStart_fixed (JsString.trim s)) by apply trim_head.
  apply trimEnd_fixed. unfold JsString.trim. apply trimEnd_last.
Qed.

(** X24. The input line never sends a blank message.  With nothing but
    white space in the input, [handleSend] does nothing at all.
    Otherwise it adds one message of mine to the end of the log, with
    the trimmed text, empties the input and, if there is a channel,
    sends that text once; the text is not empty and neither starts nor
    ends with white space (trimming it again changes nothing).  Without
    a channel the message is still added to the log. *)
Theorem handleSend_sends_trimmed (now : N) (p : ChatPage.Page) :
  let blank := Forall (λ c, JsString.is_white_space c = true) (ChatPage.inputValue p) in
  let t := JsString.trim (ChatPage.inputValue p) in
  (blank → ChatPage.handleSend now p = (p, []))
  ∧ (¬ blank →
       ChatPage.handleSend now p
       = (ChatPage.mkPage
            (ChatPage.messages p ++ [ChatPage.mkChatMessage now ChatPage.me t])
            [] (ChatPage.connected p),
          if ChatPage.connected p then [t] else [])
       ∧ t ≠ []
       ∧ (∀ c, head t = Some c → JsString.is_white_space c = false)
       ∧ (∀ c, last t = Some c → JsString.is_white_space c = false)
       ∧ JsString.trim t = t).
Proof.
  cbv zeta. unfold ChatPage.handleSend. split.
  - intros Hb. apply trim_blank in Hb. by rewrite Hb.
  - intros Hnb.
    assert (Hne : JsString.trim (ChatPage.inputValue p) ≠ []).
    { intros Hnil. by apply Hnb, trim_blank. }
    destruct (JsString.trim (ChatPage.inputValue p)) as [|c t] eqn:Ht; [done|].
    cbn [JsString.is_empty]. split_and!; try done.
    + intros c'. rewrite <- Ht. apply trim_head.
    + intros c'. rewrite <- Ht. unfold JsString.trim. apply trimEnd_last.
    + rewrite <- Ht. apply trim_trim.
Qed.

(** X25. [handleJoin] goes nowhere on a blank room identity, and
    otherwise to the chat of the trimmed identity, which is not empty
    and has no white space at either end. *)
Theorem handleJoin_needs_a_room (roomId : list N) :
  let blank := Forall (λ c, JsString.is_white_space c = true) roomId in
  let t := JsString.trim roomId in
  (blank → Home.handleJoin roomId = None)
  ∧ (¬ blank →
       Home.handleJoin roomId = Some (JsString.of_ascii "/chat?room=" ++ t)
       ∧ t ≠ []
       ∧ (∀ c, head t = Some c → JsString.is_white_space c = false)
       ∧ (∀ c, last t = Some c → JsString.is_white_space c = false)).
Proof.
  cbv zeta. unfold Home.handleJoin. split.
  - intros Hb. apply trim_blank in Hb. by rewrite Hb.
  - intros Hnb.
    assert (Hne : JsString.trim roomId ≠ []).
    { intros Hnil. by apply Hnb, trim_blank. }
    destruct (JsString.trim roomId) as [|c t] eqn:Ht; [done|].
    cbn [JsString.is_empty]. split_and!; try done.
    + intros c'. rewrite <- Ht. apply trim_head.
    + intros c'. rewrite <- Ht. unfold JsString.trim. apply trimEnd_last.
Qed.

Lemma act_prefix (a : ChatPage.Action) (p : ChatPage.Page) :
  ChatPage.messages p `prefix_of` ChatPage.messages (ChatPage.act a p)
  ∧ ChatPage.connected (ChatPage.act a p) = ChatPage.connected p.
Proof.
  destruct a as [v|now|now msg]; cbn [ChatPage.act].
  - done.
  - unfold ChatPage.handleSend.
    destruct (JsString.is_empty _); cbn; [done|]. split; [|done].
    by apply prefix_app_r.
  - cbn. split; [|done]. by apply prefix_app_r.
Qed.

Lemma act_own_trimmed (a : ChatPage.Action) (p : ChatPage.Page) :
  Forall (λ m, ChatPage.user m = ChatPage.me →
               ChatPage.text m ≠ [] ∧ JsString.trim (ChatPage.text m) = ChatPage.text m)
         (ChatPage.messages p) →
  Forall (λ m, ChatPage.user m = ChatPage.me →
               ChatPage.text m ≠ [] ∧ JsString.trim (ChatPage.text m) = ChatPage.text m)
         (ChatPage.messages (ChatPage.act a p)).
Proof.
  intros Hp. destruct a as [v|now|now msg]; cbn [ChatPage.act].
  - done.
  - unfold ChatPage.handleSend.
    destruct (JsString.trim (ChatPage.inputValue p)) as [|c t] eqn:Ht; [done|].
    cbn [JsString.is_empty fst ChatPage.messages].
    apply Forall_app. split; [done|]. constructor; [|done].
    cbn [ChatPage.text ChatPage.user]. intros _. split; [done|].
    rewrite <- Ht. apply trim_trim.
  - cbn. apply Forall_app. split; [done|]. by constructor.
Qed.

(** X26. The log only grows.  Typing, sending and receiving, in any
    order, never drop, reorder or rewrite a message that is in the log,
    and never change whether there is a channel; and in a log that
    started empty every message of mine has a text that is not empty and
    is trimmed. *)
Theorem chat_log_only_grows (l : list ChatPage.Action) (p : ChatPage.Page) :
  ChatPage.messages p `prefix_of` ChatPage.messages (ChatPage.acts l p)
  ∧ ChatPage.connected (ChatPage.acts l p) = ChatPage.connected p
  ∧ (ChatPage.messages p = [] →
     Forall (λ m, ChatPage.user m = ChatPage.me →
                  ChatPage.text m ≠ []
                  ∧ JsString.trim (ChatPage.text m) = ChatPage.text m)
            (ChatPage.messages (ChatPage.acts l p))).
Proof.
  unfold ChatPage.acts. split_and!.
  - revert p. induction l as [|a l IH]; intros p; [done|]. cbn [foldl].
    etrans; [apply (act_prefix a p)|apply IH].
  - revert p. induction l as [|a l IH]; intros p; [done|]. cbn [foldl].
    rewrite IH. apply act_prefix.
  - intros Hnil.
    assert (H : ∀ q, Forall (λ m, ChatPage.user m = ChatPage.me →
                  ChatPage.text m ≠ []
                  ∧ JsString.trim (ChatPage.text m) = ChatPage.text m)
                  (ChatPage.messages q) →
                Forall (λ m, ChatPage.user m = ChatPage.me →
                  ChatPage.text m ≠ []
                  ∧ JsString.trim (ChatPage.text m) = ChatPage.text m)
                  (ChatPage.messages (foldl (λ q a, ChatPage.act a q) q l))).
    { induction l as [|a l IH]; intros q Hq; [done|]. cbn [foldl].
      by apply IH, act_own_trimmed. }
    apply H. rewrite Hnil. constructor.
Qed.

(** ** The properties above at concrete inputs *)

Lemma no_dial_without_initialize_witness :
  connect (P:=RoomMessage) "host"
    (conn_run MoreExamples.no_initialize (WebRTCConnection_new "me"))
  = (conn_run MoreExamples.no_initialize (WebRTCConnection_new "me"),
     [Reject (mkJsError "" "Peer not initialized")]).
Proof.
  apply (no_dial_without_initialize "me" "host" MoreExamples.no_initialize).
  reflexivity.
Defined.

Lemma disconnectFrom_closes_one_witness :
  snd (disconnectFrom (P:=RoomMessage) "carol" Examples.mesh)
  = [ConnClose "carol"; Emit (UpDisconnect "carol")]
  ∧ getConnectedPeers (fst (disconnectFrom (P:=RoomMessage) "carol" Examples.mesh))
    = ["bob"; "dave"]
  ∧ fst (sendMessage "carol" Examples.hello
           (fst (disconnectFrom (P:=RoomMessage) "carol" Examples.mesh))) = false.
Proof.
  destruct (disconnectFrom_closes_one Examples.mesh Examples.hello "carol"
              Examples.carol eq_refl) as (H1 & _ & _ & _ & _ & H2 & H3 & _).
  split_and!; [exact H1| |exact H3].
  unfold getConnectedPeers. by rewrite H2.
Defined.

Lemma stale_close_drops_live_channel_witness :
  fst (sendMessage "bob" Examples.hello
         (conn_run (P:=RoomMessage)
            [OpChannelOpen false Examples.bob;
             OpChannelOpen true MoreExamples.bob_again;
             OpChannelClose Examples.bob] Examples.mesh)) = false.
Proof.
  destruct (stale_close_drops_live_channel (P:=RoomMessage) Examples.mesh
              Examples.hello Examples.bob MoreExamples.bob_again false true eq_refl)
    as (_ & _ & _ & _ & H).
  exact H.
Defined.

Lemma on_last_registration_wins_witness :
  Subscription.called
    (Subscription.onConnect
       (Subscription.on MoreExamples.second_handlers
          (Subscription.on MoreExamples.first_handlers Subscription.no_events)))
  = Some 3%nat
  ∧ Subscription.onDisconnect
      (Subscription.on MoreExamples.second_handlers
         (Subscription.on MoreExamples.first_handlers Subscription.no_events))
    = Some (Some 2%nat).
Proof.
  destruct (on_last_registration_wins MoreExamples.first_handlers
              MoreExamples.second_handlers Subscription.no_events 3%nat)
    as (H1 & _ & _ & H4 & _).
  split; [by apply H1|]. by rewrite H4.
Defined.

Lemma primitive_payload_ignored_witness :
  step (ChannelData Examples.bob (JStr "hi")) Examples.full_room
  = Some (Examples.full_room, []).
Proof.
  by apply (primitive_payload_ignored Examples.bob (JStr "hi") Examples.full_room).
Defined.

Lemma channel_open_greets_witness :
  ∃ t,
    step (ChannelOpen false Examples.bob) Examples.fresh_room
    = Some (with_connection
              (with_connections [("bob", Examples.bob)]
                 (connection Examples.fresh_room)) Examples.fresh_room, t)
    ∧ omap attempt t
      = [("bob", JOIN (mkUserInfo "me" "Me"), true);
         ("bob", USER_LIST [mkUserInfo "me" "Me"], true)].
Proof.
  destruct (channel_open_greets false Examples.bob Examples.fresh_room)
    as (t & Hstep & _ & Hgreet & _).
  exists t. split; [exact Hstep|]. by rewrite Hgreet.
Defined.

Lemma join_then_leave_restores_witness :
  fst (deliver (LEAVE "zoe") "carol"
         (fst (deliver (JOIN MoreExamples.zoe) "bob" Examples.full_room)))
  = Examples.full_room.
Proof.
  by apply (join_then_leave_restores MoreExamples.zoe "bob" "carol" Examples.full_room).
Defined.

Lemma self_join_overwrites_quietly_witness :
  snd (deliver (JOIN MoreExamples.impostor) "bob" Examples.full_room)
  = [OnJoin "me" "Not me"]
  ∧ sender (Room_sendMessage "hi" 1700000000000
              (fst (deliver (JOIN MoreExamples.impostor) "bob" Examples.full_room))).1.1
    = "Me".
Proof.
  destruct (self_join_overwrites_quietly MoreExamples.impostor "bob" "hi"
              1700000000000 Examples.full_room eq_refl) as (H1 & _ & _ & H2).
  by split.
Defined.

Lemma peer_open_roles_witness :
  ∃ r' t,
    step (PeerOpen "guest-1") MoreExamples.guest_room = Some (r', t)
    ∧ getConnectionState r' = CONNECTING
    ∧ List.filter is_dial t = [PeerConnect "room-1"].
Proof.
  destruct (peer_open_roles "guest-1" MoreExamples.guest_room)
    as (r' & t & Hstep & _ & _ & Hjoiner); [by eexists|].
  exists r', t. split; [exact Hstep|]. by apply Hjoiner.
Defined.

Lemma assigned_identity_rekeys_witness :
  ∃ r' t,
    step (PeerOpen "srv-1") MoreExamples.anonymous_room = Some (r', t)
    ∧ userInfo r' = mkUserInfo "srv-1" "Guest"
    ∧ membership r' !! "srv-1" = Some (userInfo r')
    ∧ hasUser "" r' = false.
Proof.
  destruct (assigned_identity_rekeys "srv-1" MoreExamples.anonymous_room)
    as (r' & t & Hstep & Hui & _ & Hmoved).
  destruct Hmoved as (Hnew & Hold & _); [done|].
  exists r', t. split_and!; [exact Hstep|exact Hui|exact Hnew|by apply Hold].
Defined.

Lemma compatible_strangers :
  compatible (membership Examples.fresh_room) (membership MoreExamples.bobs_room).
Proof.
  intros k u v. rewrite !membership_lookup. cbn.
  destruct (String.eqb_spec k "me") as [->|_]; [done|]. done.
Qed.

Lemma handshake_converges_witness :
  membership
    (fst (deliver_all ((λ f, ("bob", f)) <$> greeting MoreExamples.bobs_room)
            Examples.fresh_room))
  = membership Examples.fresh_room ∪ membership MoreExamples.bobs_room
  ∧ membership
      (fst (deliver_all ((λ f, ("me", f)) <$> greeting Examples.fresh_room)
              MoreExamples.bobs_room))
    = membership
        (fst (deliver_all ((λ f, ("bob", f)) <$> greeting MoreExamples.bobs_room)
                Examples.fresh_room)).
Proof.
  apply (handshake_converges Examples.fresh_room MoreExamples.bobs_room).
  - apply well_kept_new.
  - apply well_kept_new.
  - apply well_kept_new.
  - apply well_kept_new.
  - by rewrite membership_lookup.
  - by rewrite membership_lookup.
  - apply compatible_strangers.
Defined.

Lemma created_room_has_five_digits_witness :
  Home.five_digits (Home.created_id 2345) = true
  ∧ Home.handleCreate 2345 = "/chat?room=" +:+ Home.created_id 2345 +:+ "&host=true".
Proof. apply (created_room_has_five_digits 2345). reflexivity. Defined.

Lemma guest_id_is_no_created_room_witness :
  ChatPage.generatePeerId false "12345" "k3j9x2a" 1700000000000
  ≠ Home.created_id 2345.
Proof.
  destruct (guest_id_is_no_created_room "12345" "k3j9x2a" 1700000000000 2345)
    as (_ & _ & H); [reflexivity|exact H].
Defined.

Lemma peer_error_retried_or_shown_witness :
  List.filter Chat.is_retry
    (snd (Chat.on_error MoreExamples.network_error Chat.initial)) = [].
Proof.
  destruct (peer_error_retried_or_shown MoreExamples.network_error Chat.initial)
    as [_ H].
  apply H. right; right. reflexivity.
Defined.

Lemma retries_are_capped_witness :
  let st := fst (Chat.on_error Examples.id_taken Chat.initial) in
  List.filter Chat.is_retry (snd (Chat.on_error Examples.id_taken Chat.initial))
  = [Chat.SetTimeout Chat.InitializePeer 1000]
  ∧ Chat.connectionError
      (fst (Chat.run None [Chat.PeerDisconnected; Chat.PeerClosed] st))
    = Some Chat.closed_text.
Proof.
  destruct (retries_are_capped None [] Examples.id_taken "room-1")
    as (_ & _ & _ & Hbelow & _ & Hshown); [reflexivity|].
  split.
  - apply Hbelow. vm_compute. lia.
  - by apply Hshown.
Defined.

Lemma padded_hi_not_blank :
  ¬ Forall (λ c, JsString.is_white_space c = true) MoreExamples.padded_hi.
Proof. intros Hb%trim_blank. vm_compute in Hb. discriminate Hb. Qed.

Lemma handleSend_sends_trimmed_witness :
  ChatPage.handleSend 1700000000000 MoreExamples.typing_page
  = (ChatPage.mkPage
       [ChatPage.mkChatMessage 1700000000000 ChatPage.me
          (JsString.trim MoreExamples.padded_hi)]
       [] true,
     [JsString.trim MoreExamples.padded_hi])
  ∧ ChatPage.handleSend 1700000000000 MoreExamples.empty_page
    = (MoreExamples.empty_page, []).
Proof.
  split.
  - destruct (handleSend_sends_trimmed 1700000000000 MoreExamples.typing_page)
      as [_ H].
    destruct H as (H & _); [exact padded_hi_not_blank|exact H].
  - destruct (handleSend_sends_trimmed 1700000000000 MoreExamples.empty_page)
      as [H _].
    apply H. constructor.
Defined.

Lemma handleJoin_needs_a_room_witness :
  Home.handleJoin MoreExamples.padded_room
  = Some (JsString.of_ascii "/chat?room=" ++ JsString.trim MoreExamples.padded_room)
  ∧ Home.handleJoin [32; 9]%N = None.
Proof.
  split.
  - destruct (handleJoin_needs_a_room MoreExamples.padded_room) as [_ H].
    destruct H as (H & _); [|exact H].
    intros Hb%trim_blank. vm_compute in Hb. discriminate Hb.
  - destruct (handleJoin_needs_a_room [32; 9]%N) as [H _].
    apply H. by repeat constructor.
Defined.

Lemma chat_log_only_grows_witness :
  Forall (λ m, ChatPage.user m = ChatPage.me →
               ChatPage.text m ≠ []
               ∧ JsString.trim (ChatPage.text m) = ChatPage.text m)
         (ChatPage.messages
            (ChatPage.acts MoreExamples.a_conversation MoreExamples.empty_page)).
Proof.
  destruct (chat_log_only_grows MoreExamples.a_conversation MoreExamples.empty_page)
    as (_ & _ & H).
  by apply H.
Defined.

Lemma mesh_is_kept : channels_kept Examples.mesh.
Proof.
  split.
  - intros k conn Hin. cbn in Hin.
    repeat (apply elem_of_cons in Hin as [[= -> ->]|Hin]; [done|]).
    by apply elem_of_nil in Hin.
  - cbn. repeat (constructor; [set_solver|]). constructor.
Qed.

Lemma leave_reports_the_others_witness :
  omap attempt (snd (leave Examples.full_room))
  = [("carol", LEAVE "bob", false); ("dave", LEAVE "bob", true);
     ("dave", LEAVE "carol", true)]
  ∧ (OnLeave "dave" ∈ snd (leave Examples.full_room))
  ∧ ¬ (OnLeave "me" ∈ snd (leave Examples.full_room))
  ∧ snd (leave Examples.host_with_bob)
    = [ConnClose "bob"; Console LOG "Disconnected from peer: bob"; OnLeave "bob";
       PeerDestroy].
Proof.
  destruct (leave_reports_the_others "hi" 1700000000000 "me" Examples.full_room)
    as (_ & Hgone & _ & Hsent & _).
  split_and!; [| | |reflexivity].
  - rewrite Hsent; [reflexivity|exact mesh_is_kept].
  - apply Hgone. split; [reflexivity|]. exists "dave", Examples.dave.
    split; [|reflexivity]. do 2 apply list_elem_of_further. apply list_elem_of_here.
  - intros (_ & q & conn & Hin & Hme)%Hgone. cbn in Hin.
    repeat (apply elem_of_cons in Hin as [[= -> ->]|Hin]; [done|]).
    by apply elem_of_nil in Hin.
Defined.

Lemma channels_stay_kept_witness :
  channels_kept (connection Examples.host_with_bob)
  ∧ channels_kept
      (conn_run (P:=RoomMessage)
         [OpChannelOpen false Examples.bob; OpChannelOpen true MoreExamples.bob_again]
         (WebRTCConnection_new "me")).
Proof.
  destruct (channels_stay_kept Examples.me_options
              [CallJoin; PeerOpen "me"; ChannelOpen false Examples.bob;
               ChannelData Examples.bob (encode (JOIN Examples.bob_info))]
              Examples.host_with_bob
              [NewPeer (Some "me");
               Console LOG "Peer connection established with ID: me";
               Resolve (Some "me");
               Console LOG "Connected to peer: bob";
               ConnSend "bob" (JOIN (mkUserInfo "me" "Me"));
               ConnSend "bob" (USER_LIST [mkUserInfo "me" "Me"]);
               OnJoin "bob" "Bob";
               ConnSend "bob" (JOIN Examples.bob_info)]
              "me"
              [OpChannelOpen false Examples.bob; OpChannelOpen true MoreExamples.bob_again])
    as (H1 & H2 & _); [reflexivity|].
  by split.
Defined.

Lemma rejoin_forgets_self_witness :
  ∃ r' t,
    run [CallLeave; CallJoin; PeerOpen "me"] Examples.host_with_bob = Some (r', t)
    ∧ getUsers r' = []
    ∧ hasUser "me" r' = false.
Proof.
  destruct (rejoin_forgets_self "me" Examples.host_with_bob)
    as (r' & t & Hrun & _ & Hsame & _).
  exists r', t. destruct Hsame as [H1 H2]; [done|]. by split_and!.
Defined.
